(** * PROSPECT leaf optical properties model: a shallow embedding of
    [models/prospect/prospectall.py] and the properties of its four
    functions [calctav], [refl_trans_one_layer], [prospectdcore] and
    [run_prospect].

    Numbers are IEEE binary64 values (Rocq's primitive floats), as NumPy's
    [float64] and Python's [float] are.  Addition, subtraction,
    multiplication, division and square root are the correctly rounded
    IEEE operations; the transcendental functions the program takes from
    NumPy and SciPy are parameters of the development (record [libm]).
    Arrays are lists; NumPy's elementwise operators are written with a
    colon on each side that holds an array and a dollar on each side that
    holds a scalar. *)

From Stdlib Require Import Floats ZArith String Ascii Bool Lia.
From stdpp Require Import base option list gmap.

(** ** Exceptions and results *)

(** The two errors of the program are both Python [ValueError]s, told apart
    by their message. *)
Inductive exn : Type :=
| ValueError (msg : string).

Definition result (A : Type) : Type := exn + A.

Definition shape_error : exn :=
  ValueError "Leaf spectra don't have the right shape!".

Definition version_error : exn :=
  ValueError "prospect_version can only be 5 or D!".

Definition raises {A : Type} (r : result A) (e : exn) : Prop := r = inl e.

Definition is_ok {A : Type} (r : result A) : bool :=
  match r with inr _ => true | inl _ => false end.

(** ** Strings: [str.upper] on the characters a to z *)

Definition upper_ascii (c : ascii) : ascii :=
  let n := nat_of_ascii c in
  if (97 <=? n)%nat && (n <=? 122)%nat then ascii_of_nat (n - 32) else c.

Fixpoint upper (s : string) : string :=
  match s with
  | EmptyString => EmptyString
  | String c s' => String (upper_ascii c) (upper s')
  end.

(** ** Library functions *)

(** What the program calls in NumPy and SciPy beyond IEEE arithmetic:
    [np.sin], [np.deg2rad], [np.log], [np.exp], [scipy.special.expi] and
    the power operator ([**], [np.power]). *)
Record libm : Type := Libm {
  np_sin : float → float;
  np_deg2rad : float → float;
  np_log : float → float;
  np_exp : float → float;
  expi : float → float;
  np_power : float → float → float
}.

(** ** Arrays *)

Abbreviation vec := (list float).

Definition gtb (x y : float) : bool := PrimFloat.ltb y x.
Definition geb (x y : float) : bool := PrimFloat.leb y x.
Definition neb (x y : float) : bool := negb (PrimFloat.eqb x y).

Declare Scope vec_scope.
Delimit Scope vec_scope with vec.

Notation "u :+: v" := (zip_with PrimFloat.add u v)
  (at level 50, left associativity) : vec_scope.
Notation "u :-: v" := (zip_with PrimFloat.sub u v)
  (at level 50, left associativity) : vec_scope.
Notation "u :*: v" := (zip_with PrimFloat.mul u v)
  (at level 40, left associativity) : vec_scope.
Notation "u :/: v" := (zip_with PrimFloat.div u v)
  (at level 40, left associativity) : vec_scope.
Notation "u :+$ c" := (fmap (M:=list) (λ x, PrimFloat.add x c) u)
  (at level 50, left associativity) : vec_scope.
Notation "u :-$ c" := (fmap (M:=list) (λ x, PrimFloat.sub x c) u)
  (at level 50, left associativity) : vec_scope.
Notation "u :*$ c" := (fmap (M:=list) (λ x, PrimFloat.mul x c) u)
  (at level 40, left associativity) : vec_scope.
Notation "u :/$ c" := (fmap (M:=list) (λ x, PrimFloat.div x c) u)
  (at level 40, left associativity) : vec_scope.
Notation "c $+: v" := (fmap (M:=list) (λ x, PrimFloat.add c x) v)
  (at level 50, left associativity) : vec_scope.
Notation "c $-: v" := (fmap (M:=list) (λ x, PrimFloat.sub c x) v)
  (at level 50, left associativity) : vec_scope.
Notation "c $*: v" := (fmap (M:=list) (λ x, PrimFloat.mul c x) v)
  (at level 40, left associativity) : vec_scope.
Notation "c $/: v" := (fmap (M:=list) (λ x, PrimFloat.div c x) v)
  (at level 40, left associativity) : vec_scope.

(** [v[j]] for a boolean mask [j]: the elements of [v] where [j] holds. *)
Fixpoint compress {A : Type} (j : list bool) (v : list A) : list A :=
  match j, v with
  | true :: j', x :: v' => x :: compress j' v'
  | false :: j', _ :: v' => compress j' v'
  | _, _ => []
  end.

(** [v[j] = w] for a boolean mask [j]: the positions of [v] where [j] holds
    take the elements of [w] in order; the other positions keep theirs. *)
Fixpoint mask_set {A : Type} (v : list A) (j : list bool) (w : list A) : list A :=
  match v, j with
  | x :: v', true :: j' =>
      match w with
      | y :: w' => y :: mask_set v' j' w'
      | [] => x :: mask_set v' j' []
      end
  | x :: v', false :: j' => x :: mask_set v' j' w
  | _, _ => v
  end.

Definition ones_like (v : vec) : vec := (λ _, 1%float) <$> v.
Definition zeros_like (v : vec) : vec := (λ _, 0%float) <$> v.

(** [np.arange(lo, hi)] on integers. *)
Definition np_arange (lo hi : Z) : list Z := seqZ lo (hi - lo).

(** A NumPy value that is a scalar or an array; [calctav] has one ([b1]). *)
Inductive ndvalue : Type :=
| Scalar (x : float)
| Array (v : vec).

(** [x - v] for an array [v], broadcasting [x] when it is a scalar. *)
Definition nd_sub (x : ndvalue) (v : vec) : vec :=
  match x with
  | Scalar c => (c $-: v)%vec
  | Array u => (u :-: v)%vec
  end.

(** The element of [x] that meets index [i] of an array. *)
Definition nd_at (x : ndvalue) (i : nat) : option float :=
  match x with
  | Scalar c => Some c
  | Array u => u !! i
  end.

Section Prospect.

Variable m : libm.

Local Open Scope float_scope.
Local Open Scope vec_scope.

Definition vsqrt (v : vec) : vec := PrimFloat.sqrt <$> v.
Definition vlog (v : vec) : vec := np_log m <$> v.
Definition vexp (v : vec) : vec := np_exp m <$> v.
Definition vexpi (v : vec) : vec := expi m <$> v.
Definition vneg (v : vec) : vec := PrimFloat.opp <$> v.
(** [v ** c]. *)
Definition vpow (v : vec) (c : float) : vec := (λ x, np_power m x c) <$> v.

(** ** [calctav] *)

Definition calctav_sa (alpha : float) : float := np_sin m (np_deg2rad m alpha).

Definition calctav_b1 (alpha : float) (nr : vec) : ndvalue :=
  let n2 := nr :*: nr in
  let npx := n2 :+$ 1 in
  let k := vneg (n2 :-$ 1) :*: (n2 :-$ 1) :/$ 4 in
  let sa := calctav_sa alpha in
  if neb alpha 90 then
    Array (vsqrt ((sa * sa $-: npx :/$ 2) :*: (sa * sa $-: npx :/$ 2) :+: k))
  else
    Scalar 0.

Definition calctav (alpha : float) (nr : vec) : vec :=
  let n2 := nr :*: nr in
  let npx := n2 :+$ 1 in
  let nm := n2 :-$ 1 in
  let a := (nr :+$ 1) :*: (nr :+$ 1) :/$ 2 in
  let k := vneg (n2 :-$ 1) :*: (n2 :-$ 1) :/$ 4 in
  let sa := calctav_sa alpha in
  let b1 := calctav_b1 alpha nr in
  let b2 := sa * sa $-: npx :/$ 2 in
  let b := nd_sub b1 b2 in
  let b3 := vpow b 3 in
  let a3 := vpow a 3 in
  let ts := (vpow k 2 :/: (6 $*: b3) :+: k :/: b :-: b :/$ 2)
            :-: (vpow k 2 :/: (6 $*: a3) :+: k :/: a :-: a :/$ 2) in
  let tp1 := -2 $*: n2 :*: (b :-: a) :/: vpow npx 2 in
  let tp2 := -2 $*: n2 :*: npx :*: vlog (b :/: a) :/: vpow nm 2 in
  let tp3 := n2 :*: (1 $/: b :-: 1 $/: a) :/$ 2 in
  let tp4 := 16 $*: vpow n2 2 :*: (vpow n2 2 :+$ 1)
             :*: vlog ((2 $*: npx :*: b :-: vpow nm 2) :/: (2 $*: npx :*: a :-: vpow nm 2))
             :/: (vpow npx 3 :*: vpow nm 2) in
  let tp5 := 16 $*: vpow n2 3
             :*: (1 $/: (2 $*: npx :*: b :-: vpow nm 2) :-: 1 $/: (2 $*: npx :*: a :-: vpow nm 2))
             :/: vpow npx 3 in
  let tp := tp1 :+: tp2 :+: tp3 :+: tp4 :+: tp5 in
  let tav := (ts :+: tp) :/$ (2 * np_power m sa 2) in
  tav.

(** ** [refl_trans_one_layer] *)

Definition refl_trans_one_layer (alpha : float) (nr tau : vec)
  : vec * vec * vec * vec * vec :=
  let talf := calctav alpha nr in
  let ralf := 1 $-: talf in
  let t12 := calctav 90 nr in
  let r12 := 1 $-: t12 in
  let t21 := t12 :/: (nr :*: nr) in
  let r21 := 1 $-: t21 in
  (* top surface side *)
  let denom := 1 $-: r21 :*: r21 :*: tau :*: tau in
  let Ta := talf :*: tau :*: t21 :/: denom in
  let Ra := ralf :+: r21 :*: tau :*: Ta in
  (* bottom surface side *)
  let t := t12 :*: tau :*: t21 :/: denom in
  let r := r12 :+: r21 :*: tau :*: t in
  (r, t, Ra, Ta, denom).

(** ** [prospectdcore] *)

(** The wavelengths, [np.arange(400, 2501)]. *)
Definition lambdas : list Z := np_arange 400 2501.
Definition n_lambdas : nat := length lambdas.

(** Lines 94 to 96: every spectrum has [n_lambdas] elements. *)
Definition shapes_ok (nr kab kcar kbrown kw km kant : vec) : bool :=
  let n_elems_list := length <$> [nr; kab; kcar; kbrown; kw; km; kant] in
  forallb (λ n_elems, Nat.eqb n_elems n_lambdas) n_elems_list.

(** Lines 99 and 100. *)
Definition prospect_kall (N cab car cbrown cw cm ant : float)
    (kab kcar kbrown kw km kant : vec) : vec :=
  (cab $*: kab :+: car $*: kcar :+: ant $*: kant :+: cbrown $*: kbrown
   :+: cw $*: kw :+: cm $*: km) :/$ N.

(** The mask and the two terms of lines 101 to 103. *)
Definition tau_mask (kall : vec) : list bool := (λ x, gtb x 0) <$> kall.
Definition tau_t1 (kall : vec) : vec := (1 $-: kall) :*: vexp (vneg kall).
Definition tau_t2 (kall : vec) : vec := vpow kall 2 :*: vneg (vexpi (vneg kall)).

(** Lines 101 to 105, with the write [tau[j] = t1[j] + t2[j]] as the
    functional update [mask_set]. *)
Definition prospect_tau (kall : vec) : vec :=
  let j := tau_mask kall in
  let t1 := tau_t1 kall in
  let t2 := tau_t2 kall in
  let tau := ones_like t1 in
  mask_set tau j (compress j t1 :+: compress j t2).

(** Lines 118 to 129: the Stokes system for the N-1 inner layers, before
    the case of zero absorption. *)
Definition stokes_general (N : float) (r t : vec) : vec * vec :=
  let D := vsqrt ((1 $+: r :+: t) :*: (1 $+: r :-: t)
                  :*: (1 $-: r :+: t) :*: (1 $-: r :-: t)) in
  let rq := r :*: r in
  let tq := t :*: t in
  let a := (1 $+: rq :-: tq :+: D) :/: (2 $*: r) in
  let b := (1 $-: rq :+: tq :+: D) :/: (2 $*: t) in
  let bNm1 := vpow b (N - 1) in
  let bN2 := bNm1 :*: bNm1 in
  let a2 := a :*: a in
  let denom := a2 :*: bN2 :-$ 1 in
  let Rsub := a :*: (bN2 :-$ 1) :/: denom in
  let Tsub := bNm1 :*: (a2 :-$ 1) :/: denom in
  (Rsub, Tsub).

Definition zero_absorption_mask (r t : vec) : list bool :=
  (λ x, geb x 1) <$> (r :+: t).

(** Lines 118 to 134: [Rsub] and [Tsub] after the two masked writes. *)
Definition stokes_sub (N : float) (r t : vec) : vec * vec :=
  let '(Rsub, Tsub) := stokes_general N r t in
  (* Case of zero absorption *)
  let j := zero_absorption_mask r t in
  let Tsub := mask_set Tsub j
    (compress j t :/: (compress j t :+: (1 $-: compress j t) :*$ (N - 1))) in
  let Rsub := mask_set Rsub j (1 $-: compress j Tsub) in
  (Rsub, Tsub).

(** Lines 137 to 139: the top layer combined with the N-1 inner layers. *)
Definition leaf_combine (r t Ra Ta Rsub Tsub : vec) : vec * vec :=
  let denom := 1 $-: Rsub :*: r in
  let tran := Ta :*: Tsub :/: denom in
  let refl := Ra :+: Ta :*: Rsub :*: t :/: denom in
  (refl, tran).

Definition prospectdcore (N cab car cbrown cw cm ant : float)
    (nr kab kcar kbrown kw km kant : vec) (alpha : float)
  : result (list Z * vec * vec) :=
  if negb (shapes_ok nr kab kcar kbrown kw km kant) then
    inl shape_error
  else
    let kall := prospect_kall N cab car cbrown cw cm ant kab kcar kbrown kw km kant in
    let tau := prospect_tau kall in
    let '(r, t, Ra, Ta, denom) := refl_trans_one_layer alpha nr tau in
    let '(Rsub, Tsub) := stokes_sub N r t in
    let '(refl, tran) := leaf_combine r t Ra Ta Rsub Tsub in
    inr (lambdas, refl, tran).

(** ** [run_prospect] *)

(** The two tables of absorption coefficients, read from
    [prospect5_absc.txt] and [prospectd_absc.txt] when the module is
    loaded. *)
Variables nr_5 kab_5 kcar_5 kbrown_5 kw_5 km_5 : vec.
Variables nr_d kab_d kcar_d kant_d kbrown_d kw_d km_d : vec.

(** [table if x is None else x]. *)
Definition or_table (x : option vec) (table : vec) : vec :=
  match x with
  | None => table
  | Some v => v
  end.

(** The defaults of the keyword arguments are [ant = 0.0],
    [prospect_version = "D"], no override and [alpha = 40.]. *)
Definition run_prospect (n cab car cbrown cw cm ant : float)
    (prospect_version : string)
    (nr kab kcar kbrown kw km kant : option vec) (alpha : float)
  : result (list Z * vec * vec) :=
  if String.eqb prospect_version "5" then
    prospectdcore n cab car cbrown cw cm 0
      (or_table nr nr_5) (or_table kab kab_5) (or_table kcar kcar_5)
      (or_table kbrown kbrown_5) (or_table kw kw_5) (or_table km km_5)
      (zeros_like km_5) alpha
  else if String.eqb (upper prospect_version) "D" then
    prospectdcore n cab car cbrown cw cm ant
      (or_table nr nr_d) (or_table kab kab_d) (or_table kcar kcar_d)
      (or_table kbrown kbrown_d) (or_table kw kw_d) (or_table km km_d)
      (or_table kant kant_d) alpha
  else
    inl version_error.

End Prospect.

(** ** The program at one wavelength

    NumPy applies every operator element by element.  These are the
    scalar expressions an element of each array of [prospectdcore] is
    computed by, with the masked writes as conditionals; the lemmas
    [prospect_tau_lookup], [stokes_sub_lookup] and [leaf_combine_lookup]
    relate them to the arrays. *)

Section Pointwise.

Variable m : libm.

Local Open Scope float_scope.

Definition kall_pt (N cab car cbrown cw cm ant : float)
    (xab xcar xbrown xw xm xant : float) : float :=
  (cab * xab + car * xcar + ant * xant + cbrown * xbrown + cw * xw + cm * xm) / N.

Definition tau_pt (kall : float) : float :=
  if gtb kall 0 then
    (1 - kall) * np_exp m (- kall) + np_power m kall 2 * - expi m (- kall)
  else 1.

Definition stokes_general_pt (N r t : float) : float * float :=
  let D := PrimFloat.sqrt ((1 + r + t) * (1 + r - t) * (1 - r + t) * (1 - r - t)) in
  let rq := r * r in
  let tq := t * t in
  let a := (1 + rq - tq + D) / (2 * r) in
  let b := (1 - rq + tq + D) / (2 * t) in
  let bNm1 := np_power m b (N - 1) in
  let bN2 := bNm1 * bNm1 in
  let a2 := a * a in
  let denom := a2 * bN2 - 1 in
  let Rsub := a * (bN2 - 1) / denom in
  let Tsub := bNm1 * (a2 - 1) / denom in
  (Rsub, Tsub).

Definition stokes_sub_pt (N r t : float) : float * float :=
  if geb (r + t) 1 then
    let Tsub := t / (t + (1 - t) * (N - 1)) in
    let Rsub := 1 - Tsub in
    (Rsub, Tsub)
  else
    stokes_general_pt N r t.

Definition leaf_combine_pt (r t Ra Ta Rsub Tsub : float) : float * float :=
  let denom := 1 - Rsub * r in
  let tran := Ta * Tsub / denom in
  let refl := Ra + Ta * Rsub * t / denom in
  (refl, tran).

End Pointwise.

(** ** The program on a store of arrays

    NumPy arrays are mutable objects that callers and the module share by
    reference.  Here a store maps the address of an array to its elements;
    the three arrays the program writes in place ([tau], [Tsub], [Rsub])
    and the two it returns live in the store, as do the tables and the
    arrays a caller supplies.  The arrays of the other intermediate
    expressions, which nothing writes to, stay values. *)

Abbreviation loc := nat.
Abbreviation store := (gmap nat (list float)).

(** A computation returns a value or raises, and leaves a store. *)
Definition M (A : Type) : Type := store → result A * store.

#[global] Instance M_ret : MRet M := λ A x σ, (inr x, σ).

#[global] Instance M_bind : MBind M := λ A B f c σ,
  match c σ with
  | (inr x, σ') => f x σ'
  | (inl e, σ') => (inl e, σ')
  end.

Definition raise {A : Type} (e : exn) : M A := λ σ, (inl e, σ).

(** The elements of the array at [l]; a program holds no address of an
    array that does not exist, and the empty array stands for that case. *)
Definition deref (σ : store) (l : loc) : vec := default [] (σ !! l).

Definition np_get (l : loc) : M vec := λ σ, (inr (deref σ l), σ).

(** A new array, at an address the store does not use. *)
Definition np_alloc (v : vec) : M loc := λ σ,
  let l := fresh (dom σ) in (inr l, <[l := v]> σ).

(** [a[j] = w], in place. *)
Definition np_setmask (l : loc) (j : list bool) (w : vec) : M unit := λ σ,
  (inr (), alter (λ v, mask_set v j w) l σ).

Section ProspectStore.

Variable m : libm.

Local Open Scope float_scope.
Local Open Scope vec_scope.

Definition prospectdcore_st (N cab car cbrown cw cm ant : float)
    (nr kab kcar kbrown kw km kant : loc) (alpha : float)
  : M (list Z * loc * loc) :=
  nr_v ← np_get nr; kab_v ← np_get kab; kcar_v ← np_get kcar;
  kbrown_v ← np_get kbrown; kw_v ← np_get kw; km_v ← np_get km;
  kant_v ← np_get kant;
  if negb (shapes_ok nr_v kab_v kcar_v kbrown_v kw_v km_v kant_v) then
    raise shape_error
  else
    kab_v ← np_get kab; kcar_v ← np_get kcar; kant_v ← np_get kant;
    kbrown_v ← np_get kbrown; kw_v ← np_get kw; km_v ← np_get km;
    let kall := prospect_kall N cab car cbrown cw cm ant
                  kab_v kcar_v kbrown_v kw_v km_v kant_v in
    let j := tau_mask kall in
    let t1 := tau_t1 m kall in
    let t2 := tau_t2 m kall in
    tau ← np_alloc (ones_like t1);
    np_setmask tau j (compress j t1 :+: compress j t2);;
    nr_v ← np_get nr; tau_v ← np_get tau;
    let '(r, t, Ra, Ta, denom) := refl_trans_one_layer m alpha nr_v tau_v in
    let '(Rsub0, Tsub0) := stokes_general m N r t in
    Rsub ← np_alloc Rsub0;
    Tsub ← np_alloc Tsub0;
    let j := zero_absorption_mask r t in
    np_setmask Tsub j
      (compress j t :/: (compress j t :+: (1 $-: compress j t) :*$ (N - 1)));;
    Tsub_j ← np_get Tsub;
    np_setmask Rsub j (1 $-: compress j Tsub_j);;
    Rsub_v ← np_get Rsub; Tsub_v ← np_get Tsub;
    let '(refl, tran) := leaf_combine r t Ra Ta Rsub_v Tsub_v in
    tran_l ← np_alloc tran;
    refl_l ← np_alloc refl;
    mret (lambdas, refl_l, tran_l).

(** The addresses of the module's tables. *)
Variables nr_5 kab_5 kcar_5 kbrown_5 kw_5 km_5 : loc.
Variables nr_d kab_d kcar_d kant_d kbrown_d kw_d km_d : loc.

(** [table if x is None else x], on addresses: the array passed on is the
    caller's own, not a copy. *)
Definition or_table_st (x : option loc) (table : loc) : loc :=
  match x with
  | None => table
  | Some l => l
  end.

Definition run_prospect_st (n cab car cbrown cw cm ant : float)
    (prospect_version : string)
    (nr kab kcar kbrown kw km kant : option loc) (alpha : float)
  : M (list Z * loc * loc) :=
  if String.eqb prospect_version "5" then
    km_5_v ← np_get km_5;
    zeros ← np_alloc (zeros_like km_5_v);
    prospectdcore_st n cab car cbrown cw cm 0
      (or_table_st nr nr_5) (or_table_st kab kab_5) (or_table_st kcar kcar_5)
      (or_table_st kbrown kbrown_5) (or_table_st kw kw_5) (or_table_st km km_5)
      zeros alpha
  else if String.eqb (upper prospect_version) "D" then
    prospectdcore_st n cab car cbrown cw cm ant
      (or_table_st nr nr_d) (or_table_st kab kab_d) (or_table_st kcar kcar_d)
      (or_table_st kbrown kbrown_d) (or_table_st kw kw_d) (or_table_st km km_d)
      (or_table_st kant kant_d) alpha
  else
    raise version_error.

End ProspectStore.

(** ** A sample instance

    Stand-ins for the library functions and for the two tables, on which
    the model runs on concrete inputs.  The theorems hold for every
    [libm] and every table; nothing below depends on how close these
    approximations are. *)

Section Sample.

Local Open Scope float_scope.

(** [y] squared [n] times. *)
Fixpoint square_iter (n : nat) (y : float) : float :=
  match n with
  | O => y
  | S n => square_iter n (y * y)
  end.

(** The limit [(1 + x/n)^n] at [n = 2^24]. *)
Definition sample_exp (x : float) : float := square_iter 24 (1 + x / 16777216).

(** [n] terms of [y + y^3/3 + y^5/5 + ...], from the term [p / d]. *)
Fixpoint atanh_series (n : nat) (y2 p d : float) : float :=
  match n with
  | O => 0
  | S n => p / d + atanh_series n y2 (p * y2) (d + 2)
  end.

Definition sample_log (x : float) : float :=
  let y := (x - 1) / (x + 1) in
  2 * atanh_series 40 (y * y) y 1.

(** [n] terms of the Taylor series of the sine, from the term of degree [k]. *)
Fixpoint sin_series (n : nat) (x2 term k : float) : float :=
  match n with
  | O => 0
  | S n => term + sin_series n x2 (- term * x2 / ((k + 1) * (k + 2))) (k + 2)
  end.

Definition sample_sin (x : float) : float := sin_series 12 (x * x) x 1.

(** [n] terms of [x + x^2/(2 2!) + x^3/(3 3!) + ...], from the term of
    degree [k]. *)
Fixpoint expi_series (n : nat) (x term k : float) : float :=
  match n with
  | O => 0
  | S n => term / k + expi_series n x (term * x / (k + 1)) (k + 1)
  end.

Definition sample_expi (x : float) : float :=
  0x1.2788cfc6fb619p-1 + sample_log (abs x) + expi_series 60 x x 1.

Definition sample_libm : libm := {|
  np_sin := sample_sin;
  np_deg2rad := λ x, x * 0x1.1df46a2529d39p-6;
  np_log := sample_log;
  np_exp := sample_exp;
  expi := sample_expi;
  np_power := λ x y,
    if y =? 0 then 1 else if y =? 2 then x * x else if y =? 3 then x * x * x
    else sample_exp (y * sample_log x)
|}.

(** An array of [n_lambdas] equal elements. *)
Definition flat (x : float) : vec := repeat x n_lambdas.

(** An array one element short of the grid. *)
Definition short (x : float) : vec := repeat x 2100.

(** An array of the grid whose first element is [x] and whose others are
    [y]. *)
Definition bump (x y : float) : vec := x :: repeat y 2100.

(** The one-layer arrays of a leaf of sample coefficients. *)
Definition sample_one_layer : vec * vec * vec * vec * vec :=
  refl_trans_one_layer sample_libm 40 (flat 1.5)
    (prospect_tau sample_libm
       (prospect_kall 1 40 8 0 0.0078125 0.0078125 0
          (flat 0.03125) (flat 0.03125) (flat 0) (flat 2) (flat 4) (flat 0))).

(** The one-layer arrays of the sample leaf when the absorption
    coefficients vanish at the first wavelength. *)
Definition sample_mixed_one_layer : vec * vec * vec * vec * vec :=
  refl_trans_one_layer sample_libm 40 (flat 1.5)
    (prospect_tau sample_libm
       (prospect_kall 1.5 40 8 0 0.0078125 0.0078125 0
          (bump 0 0.03125) (bump 0 0.03125) (flat 0) (bump 0 2) (bump 0 4) (flat 0))).

(** A store with the thirteen tables at the addresses 0 to 12 and an
    array of a caller at 13. *)
Definition sample_store : store :=
  list_to_map
    [(0%nat, flat 1.5); (1%nat, flat 0.03125); (2%nat, flat 0.03125); (3%nat, flat 0);
     (4%nat, flat 2); (5%nat, flat 4);
     (6%nat, flat 1.5); (7%nat, flat 0.03125); (8%nat, flat 0.03125); (9%nat, flat 0.0625);
     (10%nat, flat 0); (11%nat, flat 2); (12%nat, flat 4);
     (13%nat, flat 0.046875)].

End Sample.

(** ** Vocabulary of the statements *)

(** An array a caller supplies and whose length is not that of the grid. *)
Definition bad_override (x : option vec) : Prop :=
  match x with
  | Some v => length v ≠ 2101%nat
  | None => False
  end.

(** The array at [l] exists. *)
Definition allocated (σ : store) (l : loc) : Prop := is_Some (σ !! l).

Definition allocated_opt (σ : store) (x : option loc) : Prop :=
  match x with
  | Some l => allocated σ l
  | None => True
  end.

(** [wp c σ Q]: run from [σ], the computation [c] ends with a result and a
    store that satisfy [Q]. *)
Definition wp {A : Type} (c : M A) (σ : store) (Q : result A → store → Prop) : Prop :=
  Q (c σ).1 (c σ).2.

(** What a call leaves: the arrays of [σ] as they were and, when it
    returns, the two output arrays at addresses [σ] did not use, holding
    what the function on values [pure] returns. *)
Definition returns_fresh (σ : store) (pure : result (list Z * vec * vec))
    (r : result (list Z * loc * loc)) (σ' : store) : Prop :=
  σ ⊆ σ'
  ∧ match r with
    | inl e => pure = inl e
    | inr (wv, lrefl, ltran) =>
        σ !! lrefl = None ∧ σ !! ltran = None ∧ lrefl ≠ ltran
        ∧ pure = inr (wv, deref σ' lrefl, deref σ' ltran)
    end.

Section RunOn.

Variable m : libm.
Variables nr_5 kab_5 kcar_5 kbrown_5 kw_5 km_5 : loc.
Variables nr_d kab_d kcar_d kant_d kbrown_d kw_d km_d : loc.

(** [run_prospect] on the arrays the store holds. *)
Definition run_prospect_on (σ : store) (n cab car cbrown cw cm ant : float)
    (v : string) (nr kab kcar kbrown kw km kant : option loc) (alpha : float)
  : result (list Z * vec * vec) :=
  run_prospect m
    (deref σ nr_5) (deref σ kab_5) (deref σ kcar_5) (deref σ kbrown_5)
    (deref σ kw_5) (deref σ km_5)
    (deref σ nr_d) (deref σ kab_d) (deref σ kcar_d) (deref σ kant_d)
    (deref σ kbrown_d) (deref σ kw_d) (deref σ km_d)
    n cab car cbrown cw cm ant v
    (deref σ <$> nr) (deref σ <$> kab) (deref σ <$> kcar) (deref σ <$> kbrown)
    (deref σ <$> kw) (deref σ <$> km) (deref σ <$> kant) alpha.

(** The tables and the arrays the caller supplies exist. *)
Definition inputs_allocated (σ : store)
    (nr kab kcar kbrown kw km kant : option loc) : Prop :=
  Forall (allocated σ) [nr_5; kab_5; kcar_5; kbrown_5; kw_5; km_5;
                        nr_d; kab_d; kcar_d; kant_d; kbrown_d; kw_d; km_d]
  ∧ Forall (allocated_opt σ) [nr; kab; kcar; kbrown; kw; km; kant].

End RunOn.

Section Regular.

Local Open Scope float_scope.

(** The values of one wavelength on which the formulas of [N = 1] are
    regular: finite, and with no division of zero by zero. *)
Definition single_layer_regular (r t Ra Ta : float) : bool :=
  is_finite r && is_finite t && is_finite Ta && negb (is_nan Ra)
  && if geb (r + t) 1 then
       negb (is_zero t) && is_finite (1 - t)
     else
       let D := PrimFloat.sqrt ((1 + r + t) * (1 + r - t) * (1 - r + t) * (1 - r - t)) in
       let a := (1 + r * r - t * t + D) / (2 * r) in
       is_finite a && is_finite (a * a - 1) && negb (is_zero (a * a - 1)).

(** The mantissa of 1.0. *)
Definition two52 : positive := Eval compute in (2 ^ 52)%positive.

End Regular.

(** Two numbers that are the same, or zeros of any signs. *)
Definition same_or_zeros (x y : float) : Prop :=
  x = y ∨ (is_zero x = true ∧ is_zero y = true).

(** The reflectance and the transmittance a call returned. *)
Definition result_refl (res : result (list Z * vec * vec)) : vec :=
  match res with
  | inr (_, refl, _) => refl
  | inl _ => []
  end.

Definition result_tran (res : result (list Z * vec * vec)) : vec :=
  match res with
  | inr (_, _, tran) => tran
  | inl _ => []
  end.

(** * Properties *)

(** ** Masked reads and writes *)

Section MaskLemmas.

Context {A : Type}.
Implicit Types (v u w : list A) (j : list bool).

Lemma length_mask_set v j w : length (mask_set v j w) = length v.
Proof.
  revert j w. induction v as [|x v IH]; intros [|[] j] w; simpl; auto.
  destruct w; simpl; auto.
Qed.

(** After [v[j] = u[j]], an element is that of [u] where the mask holds
    and that of [v] elsewhere. *)
Lemma mask_set_compress_lookup v u j i :
  length v = length j → length u = length j →
  mask_set v j (compress j u) !! i
  = match j !! i with Some true => u !! i | _ => v !! i end.
Proof.
  revert u j i. induction v as [|x v IH]; intros [|y u] [|b j] i Hv Hu;
    simplify_eq/=; try done.
  destruct b, i as [|i]; simpl; auto.
Qed.

Lemma compress_fmap {B} (f : A → B) j v : compress j (f <$> v) = f <$> compress j v.
Proof.
  revert v. induction j as [|[] j IH]; intros [|x v]; simpl; auto. by rewrite IH.
Qed.

Lemma compress_zip_with {B C} (f : A → B → C) j v (k : list B) :
  compress j (zip_with f v k) = zip_with f (compress j v) (compress j k).
Proof.
  revert v k. induction j as [|[] j IH]; intros [|x v] [|y k]; simpl; auto.
  all: try (by rewrite IH).
  all: by destruct (compress j v).
Qed.

End MaskLemmas.

(** Push a lookup through the elementwise operators. *)
Ltac vec_lookup :=
  repeat first
    [ rewrite list_lookup_fmap
    | rewrite lookup_zip_with
    | match goal with
      | H : ?l !! ?i = Some _ |- context [?l !! ?i] => rewrite H
      end
    | progress simpl ].

(** The length of an elementwise expression. *)
Ltac vec_length :=
  repeat first [ rewrite length_fmap | rewrite length_zip_with | rewrite length_mask_set ];
  repeat match goal with
  | H : length _ = _ |- _ => rewrite !H
  end;
  repeat rewrite Nat.min_id;
  try done.

(** ** The arrays, element by element *)

Section Lookups.

Context (m : libm).

Local Open Scope float_scope.

Lemma prospect_kall_lookup N cab car cbrown cw cm ant
    (kab kcar kbrown kw km kant : vec) (i : nat) xab xcar xbrown xw xm xant :
  kab !! i = Some xab → kcar !! i = Some xcar → kbrown !! i = Some xbrown →
  kw !! i = Some xw → km !! i = Some xm → kant !! i = Some xant →
  prospect_kall N cab car cbrown cw cm ant kab kcar kbrown kw km kant !! i
  = Some (kall_pt N cab car cbrown cw cm ant xab xcar xbrown xw xm xant).
Proof.
  intros. unfold prospect_kall, kall_pt. vec_lookup. reflexivity.
Qed.

Lemma prospect_tau_lookup (kall : vec) (i : nat) (k : float) :
  kall !! i = Some k → prospect_tau m kall !! i = Some (tau_pt m k).
Proof.
  intros Hk. unfold prospect_tau, tau_pt.
  rewrite <- compress_zip_with.
  rewrite mask_set_compress_lookup.
  - unfold tau_mask, tau_t1, tau_t2, ones_like, vexp, vneg, vpow, vexpi. vec_lookup.
    destruct (gtb k 0); reflexivity.
  - unfold tau_mask, tau_t1, ones_like, vexp, vneg. rewrite !length_fmap, !length_zip_with, !length_fmap. lia.
  - unfold tau_mask, tau_t1, tau_t2, vexp, vneg, vpow, vexpi.
    rewrite !length_zip_with, !length_fmap. lia.
Qed.

Lemma length_calctav alpha (nr : vec) : length (calctav m alpha nr) = length nr.
Proof.
  unfold calctav, calctav_b1, nd_sub, vpow, vlog, vneg, vsqrt.
  destruct (neb alpha 90); vec_length.
Qed.

Lemma length_refl_trans_one_layer alpha (nr tau : vec) r t Ra Ta denom :
  length tau = length nr →
  refl_trans_one_layer m alpha nr tau = (r, t, Ra, Ta, denom) →
  length r = length nr ∧ length t = length nr ∧ length Ra = length nr
  ∧ length Ta = length nr.
Proof.
  intros Hlen [= <- <- <- <- _].
  repeat split; vec_length; rewrite !length_calctav; lia.
Qed.

Lemma stokes_general_lookup N (r t : vec) i ri ti :
  r !! i = Some ri → t !! i = Some ti →
  (stokes_general m N r t).1 !! i = Some (stokes_general_pt m N ri ti).1
  ∧ (stokes_general m N r t).2 !! i = Some (stokes_general_pt m N ri ti).2.
Proof.
  intros Hr Ht. unfold stokes_general, stokes_general_pt, vpow, vsqrt; simpl.
  split; vec_lookup; reflexivity.
Qed.

Lemma length_stokes_general N (r t : vec) :
  length r = length t →
  length (stokes_general m N r t).1 = length r
  ∧ length (stokes_general m N r t).2 = length r.
Proof.
  intros Hlen. unfold stokes_general, vpow, vsqrt; simpl. split; vec_length.
Qed.

Lemma stokes_sub_lookup N (r t : vec) i ri ti :
  length r = length t → r !! i = Some ri → t !! i = Some ti →
  (stokes_sub m N r t).1 !! i = Some (stokes_sub_pt m N ri ti).1
  ∧ (stokes_sub m N r t).2 !! i = Some (stokes_sub_pt m N ri ti).2.
Proof.
  intros Hlen Hr Ht. unfold stokes_sub, stokes_sub_pt.
  destruct (stokes_general_lookup N r t i ri ti Hr Ht) as [HR HT].
  destruct (length_stokes_general N r t Hlen) as [HlR HlT].
  destruct (stokes_general m N r t) as [Rsub Tsub]; simpl in *.
  set (j := zero_absorption_mask r t).
  assert (Hj : j !! i = Some (geb (ri + ti) 1)).
  { unfold j, zero_absorption_mask. by vec_lookup. }
  assert (Hlj : length j = length r).
  { unfold j, zero_absorption_mask. vec_length. }
  rewrite <- ?compress_fmap, <- ?compress_zip_with, <- ?compress_fmap.
  set (Tsub' := mask_set Tsub j _).
  assert (HT' : Tsub' !! i = Some (if geb (ri + ti) 1
                  then ti / (ti + (1 - ti) * (N - 1)) else (stokes_general_pt m N ri ti).2)).
  { unfold Tsub'. rewrite mask_set_compress_lookup, Hj by vec_length.
    destruct (geb (ri + ti) 1); [by vec_lookup | done]. }
  split.
  - rewrite mask_set_compress_lookup, Hj by (unfold Tsub'; vec_length).
    destruct (geb (ri + ti) 1); [by vec_lookup | done].
  - rewrite HT'. by destruct (geb (ri + ti) 1).
Qed.

Lemma leaf_combine_lookup (r t Ra Ta Rsub Tsub : vec) i ri ti Rai Tai Rsi Tsi :
  r !! i = Some ri → t !! i = Some ti → Ra !! i = Some Rai → Ta !! i = Some Tai →
  Rsub !! i = Some Rsi → Tsub !! i = Some Tsi →
  (leaf_combine r t Ra Ta Rsub Tsub).1 !! i = Some (leaf_combine_pt ri ti Rai Tai Rsi Tsi).1
  ∧ (leaf_combine r t Ra Ta Rsub Tsub).2 !! i = Some (leaf_combine_pt ri ti Rai Tai Rsi Tsi).2.
Proof.
  intros. unfold leaf_combine, leaf_combine_pt; simpl. split; by vec_lookup.
Qed.
End Lookups.

(** ** The version string *)

Section Strings.

Local Open Scope string_scope.

Lemma upper_ascii_D (c : ascii) :
  upper_ascii c = "D"%char → c = "d"%char ∨ c = "D"%char.
Proof.
  destruct c as [[] [] [] [] [] [] [] []]; vm_compute; intros H;
    first [ discriminate H | by left | by right ].
Qed.

Lemma upper_is_D (v : string) : upper v = "D" ↔ v = "d" ∨ v = "D".
Proof.
  split.
  - destruct v as [|c [|c' v]]; simpl; intros H; try discriminate H.
    injection H as H. destruct (upper_ascii_D c H) as [-> | ->]; auto.
  - by intros [-> | ->].
Qed.

Lemma eqb_upper_D (v : string) :
  String.eqb (upper v) "D" = (String.eqb v "d" || String.eqb v "D").
Proof.
  destruct (String.eqb_spec (upper v) "D") as [H|H].
  - apply upper_is_D in H as [-> | ->]; reflexivity.
  - symmetry. apply orb_false_iff. split; apply String.eqb_neq; intros ->; by apply H.
Qed.

End Strings.

(** ** IEEE binary64 facts *)

Section FloatFacts.

Local Open Scope float_scope.

Lemma SFcompare_antisym (x y : spec_float) :
  SFcompare y x = CompOpp <$> SFcompare x y.
Proof.
  destruct x as [sx|sx| |sx mx ex], y as [sy|sy| |sy my ey]; simpl;
    try reflexivity; try (by destruct sx); try (by destruct sy);
    try (by destruct sx, sy).
  destruct sx, sy; simpl; try reflexivity.
  - rewrite (Z.compare_antisym ey ex).
    destruct (ey ?= ex)%Z; simpl; try reflexivity.
    do 2 f_equal. symmetry. exact (Pos.compare_cont_antisym mx my Eq).
  - rewrite (Z.compare_antisym ey ex).
    destruct (ey ?= ex)%Z; simpl; try reflexivity.
    f_equal. symmetry. exact (Pos.compare_cont_antisym mx my Eq).
Qed.

(** [x < y] excludes [x >= y]. *)
Lemma ltb_not_geb (x y : float) : PrimFloat.ltb x y = true → geb x y = false.
Proof.
  unfold geb. rewrite FloatAxioms.ltb_spec, FloatAxioms.leb_spec. unfold SFltb, SFleb.
  rewrite (SFcompare_antisym (Prim2SF x) (Prim2SF y)).
  by destruct (SFcompare (Prim2SF x) (Prim2SF y)) as [[]|].
Qed.

(** [x == y] excludes [x > y]. *)
Lemma eqb_not_gtb (x y : float) : PrimFloat.eqb x y = true → gtb x y = false.
Proof.
  unfold gtb. rewrite FloatAxioms.eqb_spec, FloatAxioms.ltb_spec. unfold SFeqb, SFltb.
  rewrite (SFcompare_antisym (Prim2SF x) (Prim2SF y)).
  by destruct (SFcompare (Prim2SF x) (Prim2SF y)) as [[]|].
Qed.

Lemma SFcompare_refl (x : spec_float) :
  x ≠ S754_nan -> SFcompare x x = Some Eq.
Proof.
  destruct x as [s|s| |s m e]; simpl; intros H; try destruct s; try easy.
  - rewrite Z.compare_refl.
    change (PosDef.Pos.compare_cont Eq m m) with (Pos.compare m m).
    now rewrite Pos.compare_refl.
  - rewrite Z.compare_refl.
    change (PosDef.Pos.compare_cont Eq m m) with (Pos.compare m m).
    now rewrite Pos.compare_refl.
Qed.

Lemma is_nan_spec (x : float) : is_nan x = true <-> Prim2SF x = S754_nan.
Proof.
  unfold is_nan. rewrite FloatAxioms.eqb_spec. unfold SFeqb. split.
  - intros H. destruct (Prim2SF x) eqn:E; try reflexivity;
      rewrite SFcompare_refl in H by easy; discriminate.
  - intros ->. reflexivity.
Qed.

Lemma is_zero_spec (x : float) :
  is_zero x = true <-> exists s, Prim2SF x = S754_zero s.
Proof.
  unfold is_zero. rewrite FloatAxioms.eqb_spec. unfold SFeqb.
  change (Prim2SF PrimFloat.zero) with (S754_zero false). split.
  - destruct (Prim2SF x) as [s|s| |s m e]; simpl;
      try destruct s; try discriminate; eauto.
  - intros [s ->]. reflexivity.
Qed.

Lemma is_finite_spec (x : float) :
  is_finite x = true <->
  (exists s, Prim2SF x = S754_zero s) \/ (exists s m e, Prim2SF x = S754_finite s m e).
Proof.
  unfold is_finite, is_nan, is_infinity.
  rewrite !FloatAxioms.eqb_spec, abs_spec. unfold SFeqb.
  change (Prim2SF PrimFloat.infinity) with (S754_infinity false). split.
  - destruct (Prim2SF x) as [s|s| |s m e] eqn:E; eauto 6.
    + simpl. destruct s; discriminate.
    + simpl. discriminate.
  - intros [[s ->]|(s & m & e & ->)]; [reflexivity|].
    rewrite SFcompare_refl by easy. reflexivity.
Qed.

Lemma Prim2SF_one : Prim2SF 1 = S754_finite false two52 (-52).
Proof. reflexivity. Qed.

(** A mantissa in canonical position rounds to itself. *)
Lemma binary_round_aux_canonical (s : bool) (m : positive) (e : Z) :
  bounded prec emax m e = true →
  binary_round_aux prec emax s (Z.pos m) e loc_Exact = S754_finite s m e.
Proof.
  unfold bounded, canonical_mantissa. intros [Hc He]%andb_true_iff.
  apply Z.eqb_eq in Hc.
  unfold binary_round_aux, shr_fexp. cbn [Zdigits2 shr_record_of_loc].
  rewrite Hc, Z.sub_diag. cbn [shr shr_m loc_of_shr_record round_nearest_even Zdigits2 shr_record_of_loc].
  rewrite Hc, Z.sub_diag. cbn [shr shr_m]. by rewrite He.
Qed.

Lemma digits2_pos_shift52 (m : positive) :
  Z.pos (digits2_pos (two52 * m)) = (Z.pos (digits2_pos m) + 52)%Z.
Proof.
  unfold two52. cbv [Pos.mul PosDef.Pos.mul digits2_pos]. fold digits2_pos. lia.
Qed.

Lemma iter_shr_1_52 (m : positive) :
  SpecFloat.iter_pos shr_1 52 {| shr_m := Z.pos (two52 * m); shr_r := false; shr_s := false |}
  = {| shr_m := Z.pos m; shr_r := false; shr_s := false |}.
Proof. reflexivity. Qed.

(** A canonical mantissa shifted left by 52 bits rounds back to itself. *)
Lemma binary_round_aux_shift52 (s : bool) (m : positive) (e : Z) :
  bounded prec emax m e = true →
  binary_round_aux prec emax s (Z.pos (two52 * m)) (e - 52) loc_Exact
  = S754_finite s m e.
Proof.
  intros Hb. pose proof Hb as [Hc He]%andb_true_iff.
  apply Z.eqb_eq in Hc.
  unfold binary_round_aux at 1, shr_fexp at 1. cbn [Zdigits2 shr_record_of_loc].
  rewrite digits2_pos_shift52.
  replace (Z.pos (digits2_pos m) + 52 + (e - 52))%Z with (Z.pos (digits2_pos m) + e)%Z by lia.
  rewrite Hc. replace (e - (e - 52))%Z with 52%Z by lia.
  cbn [shr]. rewrite iter_shr_1_52.
  replace (e - 52 + 52)%Z with e by lia.
  cbn [shr_m loc_of_shr_record round_nearest_even].
  unfold shr_fexp. cbn [Zdigits2 shr_record_of_loc].
  rewrite Hc, Z.sub_diag. cbn [shr shr_m]. by rewrite He.
Qed.

Lemma Prim2SF_bounded (x : float) s m e :
  Prim2SF x = S754_finite s m e → bounded prec emax m e = true.
Proof. intros H. pose proof (Prim2SF_valid x) as Hv. by rewrite H in Hv. Qed.

(** [x * 1 = x], for every [x]. *)
Lemma mul_1_r (x : float) : x * 1 = x.
Proof.
  apply Prim2SF_inj. rewrite mul_spec, Prim2SF_one.
  destruct (Prim2SF x) as [s|s| |s m e] eqn:E; cbn [SF64mul SFmul];
    try reflexivity; try (by destruct s).
  change (PosDef.Pos.mul m two52) with (m * two52)%positive.
  rewrite Pos.mul_comm, xorb_false_r.
  change (e + -52)%Z with (e - 52)%Z.
  apply binary_round_aux_shift52. by eapply Prim2SF_bounded.
Qed.

(** [1 * x = x], for every [x]. *)
Lemma mul_1_l (x : float) : 1 * x = x.
Proof.
  apply Prim2SF_inj. rewrite mul_spec, Prim2SF_one.
  destruct (Prim2SF x) as [s|s| |s m e] eqn:E; cbn [SF64mul SFmul];
    try reflexivity; try (by destruct s).
  rewrite xorb_false_l. replace (-52 + e)%Z with (e - 52)%Z by lia.
  apply binary_round_aux_shift52. by eapply Prim2SF_bounded.
Qed.

Lemma div_eucl_mul (a : Z) (b : positive) :
  Z.div_eucl (a * Z.pos b) (Z.pos b) = (a, 0%Z).
Proof.
  pose proof (Z.div_mul a (Z.pos b) ltac:(lia)) as Hd.
  pose proof (Z.mod_mul a (Z.pos b) ltac:(lia)) as Hm.
  unfold Z.div, Z.modulo in Hd, Hm.
  destruct (Z.div_eucl (a * Z.pos b) (Z.pos b)) as [q r]. simpl in *. congruence.
Qed.

(** [x / x = 1] for a finite [x] that is not zero. *)
Lemma div_same (x : float) s m e :
  Prim2SF x = S754_finite s m e → x / x = 1.
Proof.
  intros E. apply Prim2SF_inj. rewrite div_spec, Prim2SF_one, E.
  cbn [SF64div SFdiv]. unfold SFdiv_core_binary.
  replace (Zdigits2 (Z.pos m) + e - (Zdigits2 (Z.pos m) + e))%Z with 0%Z by lia.
  rewrite Z.sub_diag.
  change (Z.min (fexp prec emax 0) 0) with (-53)%Z.
  change (0 - -53)%Z with 53%Z. cbv iota beta.
  rewrite Z.shiftl_mul_pow2 by lia.
  rewrite Z.mul_comm, div_eucl_mul.
  replace (new_location (Z.pos m) 0) with loc_Exact
    by (unfold new_location; by destruct (Z.even (Z.pos m))).
  by destruct s.
Qed.

(** A canonical mantissa shifted left by one bit rounds back to itself. *)
Lemma binary_round_aux_shift1 (s : bool) (m : positive) (e : Z) :
  bounded prec emax m e = true →
  binary_round_aux prec emax s (Z.pos m~0) (e - 1) loc_Exact = S754_finite s m e.
Proof.
  intros Hb. pose proof Hb as [Hc He]%andb_true_iff.
  apply Z.eqb_eq in Hc.
  unfold binary_round_aux at 1, shr_fexp at 1. cbn [Zdigits2 shr_record_of_loc digits2_pos].
  replace (Z.pos (Pos.succ (digits2_pos m)) + (e - 1))%Z
    with (Z.pos (digits2_pos m) + e)%Z by lia.
  rewrite Hc. replace (e - (e - 1))%Z with 1%Z by lia.
  cbn [shr SpecFloat.iter_pos shr_1 orb].
  replace (e - 1 + 1)%Z with e by lia.
  cbn [shr_m loc_of_shr_record round_nearest_even].
  unfold shr_fexp. cbn [Zdigits2 shr_record_of_loc].
  rewrite Hc, Z.sub_diag. cbn [shr shr_m]. by rewrite He.
Qed.

Lemma fexp_canonical_pred (d e : Z) :
  fexp prec emax (d + e) = e →
  fexp prec emax (d + e - 1) = e ∨ fexp prec emax (d + e - 1) = (e - 1)%Z.
Proof. unfold fexp, emin, prec, emax. lia. Qed.

(** [x / 1 = x], for every [x]. *)
Lemma div_1_r (x : float) : x / 1 = x.
Proof.
  apply Prim2SF_inj. rewrite div_spec, Prim2SF_one.
  destruct (Prim2SF x) as [s|s| |s m e] eqn:E; cbn [SF64div SFdiv];
    try reflexivity; try (by destruct s).
  pose proof (Prim2SF_bounded x s m e E) as Hb.
  pose proof Hb as [Hc He]%andb_true_iff. apply Z.eqb_eq in Hc.
  unfold SFdiv_core_binary. cbn [Zdigits2].
  change (Z.pos (digits2_pos two52) + -52)%Z with 1%Z.
  change (e - -52)%Z with (e + 52)%Z.
  rewrite xorb_false_r.
  destruct (fexp_canonical_pred _ _ Hc) as [-> | ->].
  - rewrite Z.min_l by lia. replace (e + 52 - e)%Z with 52%Z by lia.
    cbv iota beta. rewrite Z.shiftl_mul_pow2 by lia.
    change (2 ^ 52)%Z with (Z.pos two52). rewrite div_eucl_mul.
    change (new_location (Z.pos two52) 0) with loc_Exact.
    by apply binary_round_aux_canonical.
  - rewrite Z.min_l by lia. replace (e + 52 - (e - 1))%Z with 53%Z by lia.
    cbv iota beta. rewrite Z.shiftl_mul_pow2 by lia.
    change (2 ^ 53)%Z with (2 * Z.pos two52)%Z.
    rewrite Z.mul_assoc, div_eucl_mul.
    change (new_location (Z.pos two52) 0) with loc_Exact.
    replace (Z.pos m * 2)%Z with (Z.pos m~0) by lia.
    by apply binary_round_aux_shift1.
Qed.

Lemma finite_nonzero_spec (x : float) :
  is_finite x = true → is_zero x = false →
  ∃ s m e, Prim2SF x = S754_finite s m e.
Proof.
  intros [[s Hs]|H]%is_finite_spec Hz; [|done].
  assert (is_zero x = true) by (apply is_zero_spec; eauto). congruence.
Qed.

Lemma mul_zero_r (x z : float) :
  is_finite x = true → is_zero z = true → is_zero (x * z) = true.
Proof.
  intros Hx [sz Hz]%is_zero_spec. apply is_zero_spec.
  rewrite mul_spec, Hz. apply is_finite_spec in Hx as [[s ->]|(s & m & e & ->)];
    simpl; eauto.
Qed.

Lemma mul_zero_l (z x : float) :
  is_zero z = true → is_finite x = true → is_zero (z * x) = true.
Proof.
  intros [sz Hz]%is_zero_spec Hx. apply is_zero_spec.
  rewrite mul_spec, Hz. apply is_finite_spec in Hx as [[s ->]|(s & m & e & ->)];
    simpl; eauto.
Qed.

Lemma div_zero_l (z y : float) :
  is_zero z = true → is_finite y = true → is_zero y = false →
  is_zero (z / y) = true.
Proof.
  intros [sz Hz]%is_zero_spec Hy Hy0. apply is_zero_spec.
  destruct (finite_nonzero_spec y Hy Hy0) as (s & m & e & E).
  rewrite div_spec, Hz, E. simpl; eauto.
Qed.

Lemma sub_1_zero (z : float) : is_zero z = true → 1 - z = 1.
Proof.
  intros [sz Hz]%is_zero_spec. apply Prim2SF_inj.
  by rewrite sub_spec, Hz, Prim2SF_one.
Qed.

Lemma add_zero_r (x z : float) :
  is_finite x = true → is_zero x = false → is_zero z = true → x + z = x.
Proof.
  intros Hx Hx0 [sz Hz]%is_zero_spec. apply Prim2SF_inj.
  destruct (finite_nonzero_spec x Hx Hx0) as (s & m & e & E).
  by rewrite add_spec, Hz, E.
Qed.

Lemma add_zero_eqb (x z : float) :
  is_nan x = false → is_zero z = true → (x + z =? x) = true.
Proof.
  intros Hx [sz Hz]%is_zero_spec.
  rewrite FloatAxioms.eqb_spec, add_spec, Hz. unfold SFeqb.
  destruct (Prim2SF x) as [s|s| |s m e] eqn:E.
  - by destruct s, sz.
  - by destruct s.
  - apply is_nan_spec in E. congruence.
  - cbn [SF64add SFadd]. by rewrite SFcompare_refl.
Qed.

Lemma Prim2SF_nan : Prim2SF nan = S754_nan.
Proof. reflexivity. Qed.

Lemma mul_nan_l (x : float) : nan * x = nan.
Proof. apply Prim2SF_inj. by rewrite mul_spec, Prim2SF_nan. Qed.
Lemma mul_nan_r (x : float) : x * nan = nan.
Proof. apply Prim2SF_inj. rewrite mul_spec, Prim2SF_nan. by destruct (Prim2SF x). Qed.
Lemma div_nan_l (x : float) : nan / x = nan.
Proof. apply Prim2SF_inj. by rewrite div_spec, Prim2SF_nan. Qed.
Lemma div_nan_r (x : float) : x / nan = nan.
Proof. apply Prim2SF_inj. rewrite div_spec, Prim2SF_nan. by destruct (Prim2SF x). Qed.
Lemma add_nan_l (x : float) : nan + x = nan.
Proof. apply Prim2SF_inj. by rewrite add_spec, Prim2SF_nan. Qed.
Lemma add_nan_r (x : float) : x + nan = nan.
Proof. apply Prim2SF_inj. rewrite add_spec, Prim2SF_nan. by destruct (Prim2SF x). Qed.
Lemma sub_nan_l (x : float) : nan - x = nan.
Proof. apply Prim2SF_inj. by rewrite sub_spec, Prim2SF_nan. Qed.
Lemma sub_nan_r (x : float) : x - nan = nan.
Proof. apply Prim2SF_inj. rewrite sub_spec, Prim2SF_nan. by destruct (Prim2SF x). Qed.

End FloatFacts.

(** ** Shape validation *)

Section Shapes.

Local Open Scope float_scope.

Lemma n_lambdas_eq : n_lambdas = 2101%nat.
Proof. reflexivity. Qed.

Lemma shapes_ok_true (nr kab kcar kbrown kw km kant : vec) :
  shapes_ok nr kab kcar kbrown kw km kant = true ↔
  length nr = 2101%nat ∧ length kab = 2101%nat ∧ length kcar = 2101%nat
  ∧ length kbrown = 2101%nat ∧ length kw = 2101%nat ∧ length km = 2101%nat
  ∧ length kant = 2101%nat.
Proof.
  unfold shapes_ok. cbn [fmap list_fmap forallb]. rewrite n_lambdas_eq.
  rewrite !andb_true_iff, !Nat.eqb_eq. tauto.
Qed.

Lemma shapes_ok_false (nr kab kcar kbrown kw km kant : vec) :
  length nr ≠ 2101%nat ∨ length kab ≠ 2101%nat ∨ length kcar ≠ 2101%nat
  ∨ length kbrown ≠ 2101%nat ∨ length kw ≠ 2101%nat ∨ length km ≠ 2101%nat
  ∨ length kant ≠ 2101%nat →
  shapes_ok nr kab kcar kbrown kw km kant = false.
Proof.
  intros H. apply not_true_is_false. rewrite shapes_ok_true. tauto.
Qed.

Section Core.

Context (m : libm).

Lemma prospectdcore_bad_shape N cab car cbrown cw cm ant
    (nr kab kcar kbrown kw km kant : vec) alpha :
  shapes_ok nr kab kcar kbrown kw km kant = false →
  prospectdcore m N cab car cbrown cw cm ant nr kab kcar kbrown kw km kant alpha
  = inl shape_error.
Proof. intros H. unfold prospectdcore. by rewrite H. Qed.

Lemma prospectdcore_good_shape N cab car cbrown cw cm ant
    (nr kab kcar kbrown kw km kant : vec) alpha :
  shapes_ok nr kab kcar kbrown kw km kant = true →
  is_ok (prospectdcore m N cab car cbrown cw cm ant nr kab kcar kbrown kw km kant alpha)
  = true.
Proof.
  intros H. unfold prospectdcore. rewrite H. cbn [negb].
  destruct (refl_trans_one_layer m alpha nr _) as [[[[r t] Ra] Ta] denom].
  destruct (stokes_sub m N r t) as [Rsub Tsub].
  by destruct (leaf_combine r t Ra Ta Rsub Tsub).
Qed.

Lemma prospectdcore_st_bad_shape N cab car cbrown cw cm ant
    (nr kab kcar kbrown kw km kant : loc) alpha (σ : store) :
  shapes_ok (deref σ nr) (deref σ kab) (deref σ kcar) (deref σ kbrown)
    (deref σ kw) (deref σ km) (deref σ kant) = false →
  prospectdcore_st m N cab car cbrown cw cm ant nr kab kcar kbrown kw km kant alpha σ
  = (inl shape_error, σ).
Proof.
  intros H. unfold prospectdcore_st, mbind, M_bind, np_get. by rewrite H.
Qed.

End Core.

Lemma zeros_like_repeat (v : vec) : zeros_like v = repeat 0 (length v).
Proof. unfold zeros_like. induction v as [|x v IH]; simpl; [done | by f_equal]. Qed.

End Shapes.

(** ** Reasoning on the store: weakest preconditions *)

Section Store.

Local Open Scope float_scope.

Section Wp.
Context {A B : Type}.

Lemma wp_bind (c : M A) (f : A → M B) σ (Q : result B → store → Prop) :
  wp c σ (λ r σ', match r with
                  | inr x => wp (f x) σ' Q
                  | inl e => Q (inl e) σ'
                  end) →
  wp (c ≫= f) σ Q.
Proof.
  unfold wp, mbind, M_bind. by destruct (c σ) as [[e|x] σ'].
Qed.

Lemma wp_ret (x : A) σ (Q : result A → store → Prop) :
  Q (inr x) σ → wp (mret x) σ Q.
Proof. done. Qed.

Lemma wp_raise (e : exn) σ (Q : result A → store → Prop) :
  Q (inl e) σ → wp (raise e) σ Q.
Proof. done. Qed.

End Wp.

Lemma wp_get (l : loc) σ (Q : result vec → store → Prop) :
  Q (inr (deref σ l)) σ → wp (np_get l) σ Q.
Proof. done. Qed.

Lemma wp_alloc (v : vec) σ (Q : result loc → store → Prop) :
  (∀ l, σ !! l = None → Q (inr l) (<[l := v]> σ)) → wp (np_alloc v) σ Q.
Proof.
  intros H. apply H. apply not_elem_of_dom, is_fresh.
Qed.

Lemma wp_setmask (l : loc) (j : list bool) (w : vec) σ (Q : result () → store → Prop) :
  Q (inr ()) (alter (λ v, mask_set v j w) l σ) → wp (np_setmask l j w) σ Q.
Proof. done. Qed.

Lemma deref_insert_eq (σ : store) l v : deref (<[l := v]> σ) l = v.
Proof. unfold deref. by rewrite lookup_insert_eq. Qed.

Lemma deref_insert_ne (σ : store) l l' v :
  l ≠ l' → deref (<[l := v]> σ) l' = deref σ l'.
Proof. intros. unfold deref. by rewrite lookup_insert_ne. Qed.

(** An array with an element is in the store. *)
Lemma deref_length_in (σ : store) l :
  length (deref σ l) = 2101%nat → is_Some (σ !! l).
Proof. unfold deref. by destruct (σ !! l). Qed.

Lemma deref_old (σ : store) l l' v :
  is_Some (σ !! l') → σ !! l = None → deref (<[l := v]> σ) l' = deref σ l'.
Proof.
  intros [x Hx] Hl. apply deref_insert_ne. congruence.
Qed.

Ltac wp_step :=
  first [ apply wp_bind; first [ apply wp_get | apply wp_setmask | apply wp_alloc; intros ? ? ]
        | apply wp_ret | apply wp_raise ];
  cbn beta iota.

Section StoreSpec.
Context (m : libm).

Lemma prospectdcore_st_spec N cab car cbrown cw cm ant
    (nr kab kcar kbrown kw km kant : loc) alpha (σ : store) :
  wp (prospectdcore_st m N cab car cbrown cw cm ant nr kab kcar kbrown kw km kant alpha) σ
     (returns_fresh σ (prospectdcore m N cab car cbrown cw cm ant
                         (deref σ nr) (deref σ kab) (deref σ kcar) (deref σ kbrown)
                         (deref σ kw) (deref σ km) (deref σ kant) alpha)).
Proof.
  unfold prospectdcore_st. do 7 wp_step.
  unfold prospectdcore.
  destruct (shapes_ok _ _ _ _ _ _ _) eqn:Hs; cbn [negb].
  2: { wp_step. by split. }
  apply shapes_ok_true in Hs as (Hnr & Hkab & Hkcar & Hkbrown & Hkw & Hkm & Hkant).
  apply deref_length_in in Hnr, Hkab, Hkcar, Hkbrown, Hkw, Hkm, Hkant.
  do 6 wp_step.
  set (kall := prospect_kall _ _ _ _ _ _ _ _ _ _ _ _ _).
  wp_step. rename l into ltau, H into Hltau.
  wp_step. rewrite alter_insert_eq.
  do 2 wp_step.
  rewrite deref_insert_eq, (deref_old σ ltau nr) by done.
  fold (prospect_tau m kall).
  destruct (refl_trans_one_layer m alpha (deref σ nr) (prospect_tau m kall))
    as [[[[r t] Ra] Ta] denom].
  unfold stokes_sub. destruct (stokes_general m N r t) as [Rsub0 Tsub0].
  set (j := zero_absorption_mask r t).
  wp_step. rename l into lR, H into HlR.
  wp_step. rename l into lT, H into HlT.
  apply lookup_insert_None in HlR as [HlR HR_tau].
  apply lookup_insert_None in HlT as [HlT HT_R].
  apply lookup_insert_None in HlT as [HlT HT_tau].
  wp_step. rewrite alter_insert_eq.
  wp_step. rewrite deref_insert_eq.
  wp_step. rewrite alter_insert_ne, alter_insert_eq by done.
  do 2 wp_step.
  rewrite deref_insert_eq, deref_insert_ne, deref_insert_eq by done.
  destruct (leaf_combine _ _ _ _ _ _) as [refl tran].
  wp_step. rename l into ltran, H into Hltran.
  wp_step. rename l into lrefl, H into Hlrefl.
  repeat match goal with
  | H : <[_ := _]> _ !! _ = None |- _ => apply lookup_insert_None in H as [H ?]
  end.
  wp_step. unfold returns_fresh.
  rewrite deref_insert_eq, deref_insert_ne, deref_insert_eq by done.
  split; [|done].
  repeat (apply insert_subseteq_r; [done|]). done.
Qed.
Lemma wp_mono {A} (c : M A) σ (Q Q' : result A → store → Prop) :
  wp c σ Q → (∀ r σ', Q r σ' → Q' r σ') → wp c σ Q'.
Proof. unfold wp. auto. Qed.

Lemma deref_weaken (σ σ' : store) l :
  σ ⊆ σ' → allocated σ l → deref σ' l = deref σ l.
Proof.
  intros Hsub [v Hv]. unfold deref. by rewrite Hv, (lookup_weaken _ _ _ _ Hv Hsub).
Qed.

Lemma allocated_weaken (σ σ' : store) l :
  σ ⊆ σ' → allocated σ l → allocated σ' l.
Proof. intros Hsub [v Hv]. exists v. by eapply lookup_weaken. Qed.

Lemma allocated_or_table (σ : store) x table :
  allocated_opt σ x → allocated σ table → allocated σ (or_table_st x table).
Proof. by destruct x. Qed.

Lemma deref_or_table (σ : store) x table :
  deref σ (or_table_st x table) = or_table (deref σ <$> x) (deref σ table).
Proof. by destruct x. Qed.

Lemma returns_fresh_weaken (σ0 σ σ' : store) pure r :
  σ0 ⊆ σ → returns_fresh σ pure r σ' → returns_fresh σ0 pure r σ'.
Proof.
  intros Hsub [Hsub' Hr]. split; [by trans σ|].
  destruct r as [e|[[wv lrefl] ltran]]; [done|].
  destruct Hr as (H1 & H2 & H3 & H4).
  repeat split; try done; by eapply lookup_weaken_None.
Qed.

Section Run.
Context (nr_5 kab_5 kcar_5 kbrown_5 kw_5 km_5 : loc).
Context (nr_d kab_d kcar_d kant_d kbrown_d kw_d km_d : loc).


Local Abbreviation run_st :=
  (run_prospect_st m nr_5 kab_5 kcar_5 kbrown_5 kw_5 km_5
     nr_d kab_d kcar_d kant_d kbrown_d kw_d km_d).
Local Abbreviation run_prospect_on :=
  (run_prospect_on m nr_5 kab_5 kcar_5 kbrown_5 kw_5 km_5
     nr_d kab_d kcar_d kant_d kbrown_d kw_d km_d).
Local Abbreviation inputs_allocated :=
  (inputs_allocated nr_5 kab_5 kcar_5 kbrown_5 kw_5 km_5
     nr_d kab_d kcar_d kant_d kbrown_d kw_d km_d).

Lemma run_prospect_on_weaken (σ σ' : store) n cab car cbrown cw cm ant v
    nr kab kcar kbrown kw km kant alpha :
  σ ⊆ σ' → inputs_allocated σ nr kab kcar kbrown kw km kant →
  run_prospect_on σ' n cab car cbrown cw cm ant v nr kab kcar kbrown kw km kant alpha
  = run_prospect_on σ n cab car cbrown cw cm ant v nr kab kcar kbrown kw km kant alpha.
Proof.
  intros Hsub [Ht Ho]. unfold run_prospect_on.
  repeat match goal with
  | H : Forall _ (_ :: _) |- _ => apply Forall_cons in H as [? H]
  end.
  assert (Hopt : ∀ x, allocated_opt σ x → deref σ' <$> x = deref σ <$> x).
  { intros [l|] Hl; [|done]. simpl. f_equal. by apply deref_weaken. }
  rewrite !Hopt by done. by rewrite !(deref_weaken σ σ') by done.
Qed.

Lemma run_prospect_st_spec (σ : store) n cab car cbrown cw cm ant v
    nr kab kcar kbrown kw km kant alpha :
  inputs_allocated σ nr kab kcar kbrown kw km kant →
  wp (run_st n cab car cbrown cw cm ant v nr kab kcar kbrown kw km kant alpha) σ
     (returns_fresh σ (run_prospect_on σ n cab car cbrown cw cm ant v
                         nr kab kcar kbrown kw km kant alpha)).
Proof.
  intros [Ht Ho]. unfold run_prospect_on, run_prospect, run_prospect_st.
  repeat match goal with
  | H : Forall _ (_ :: _) |- _ => apply Forall_cons in H as [? H]
  end.
  destruct (String.eqb v "5"); [|destruct (String.eqb (upper v) "D")].
  - wp_step. wp_step. rename l into l0, H12 into Hl0.
    eapply wp_mono; [apply prospectdcore_st_spec|]. cbn beta.
    intros r σ' Hr. apply (returns_fresh_weaken σ) in Hr; [|by apply insert_subseteq].
    rewrite deref_insert_eq in Hr.
    rewrite !(deref_old σ l0) in Hr by (done || by apply allocated_or_table).
    by rewrite !deref_or_table in Hr.
  - eapply wp_mono; [apply prospectdcore_st_spec|]. cbn beta.
    intros r σ' Hr. by rewrite !deref_or_table in Hr.
  - by wp_step.
Qed.

End Run.
End StoreSpec.

End Store.

(** ** One layer: [N = 1] at one wavelength *)

Section SingleLayer.

Context (m : libm).

Local Open Scope float_scope.


Hypothesis power_zero : ∀ x, np_power m x 0 = 1.

Lemma stokes_sub_pt_single_layer (r t : float) :
  is_finite r = true → is_finite t = true →
  (if geb (r + t) 1 then
     negb (is_zero t) && is_finite (1 - t)
   else
     let D := PrimFloat.sqrt ((1 + r + t) * (1 + r - t) * (1 - r + t) * (1 - r - t)) in
     let a := (1 + r * r - t * t + D) / (2 * r) in
     is_finite a && is_finite (a * a - 1) && negb (is_zero (a * a - 1))) = true →
  is_zero (stokes_sub_pt m 1 r t).1 = true ∧ (stokes_sub_pt m 1 r t).2 = 1.
Proof.
  intros Hr Ht Hreg. unfold stokes_sub_pt, stokes_general_pt.
  change (1 - 1) with 0. rewrite power_zero.
  destruct (geb (r + t) 1); cbn [fst snd].
  - apply andb_true_iff in Hreg as [Ht0%negb_true_iff H1t].
    assert (Hz : is_zero ((1 - t) * 0) = true) by (by apply mul_zero_r).
    rewrite (add_zero_r t _ Ht Ht0 Hz).
    destruct (finite_nonzero_spec t Ht Ht0) as (s & mt & e & E).
    by rewrite (div_same t s mt e E).
  - cbv zeta in Hreg.
    set (a := (1 + r * r - t * t + _) / (2 * r)) in *.
    apply andb_true_iff in Hreg as [[Ha Ha2]%andb_true_iff Hnz%negb_true_iff].
    change (1 * 1) with 1. change (1 - 1) with 0.
    rewrite !mul_1_r, mul_1_l.
    destruct (finite_nonzero_spec _ Ha2 Hnz) as (s & ma & e & E).
    rewrite (div_same _ s ma e E). split; [|done].
    apply div_zero_l; [by apply mul_zero_r|done|done].
Qed.

Lemma single_layer_pt (r t Ra Ta : float) :
  single_layer_regular r t Ra Ta = true →
  let Rsub := (stokes_sub_pt m 1 r t).1 in
  let Tsub := (stokes_sub_pt m 1 r t).2 in
  let refl := (leaf_combine_pt r t Ra Ta Rsub Tsub).1 in
  let tran := (leaf_combine_pt r t Ra Ta Rsub Tsub).2 in
  is_zero Rsub = true ∧ Tsub = 1 ∧ PrimFloat.eqb refl Ra = true ∧ tran = Ta.
Proof.
  unfold single_layer_regular.
  intros [[[[Hr Ht]%andb_true_iff HTa]%andb_true_iff HRa%negb_true_iff]%andb_true_iff Hreg]%andb_true_iff.
  destruct (stokes_sub_pt_single_layer r t Hr Ht Hreg) as [HR HT].
  cbv zeta. split; [done|]. split; [done|].
  unfold leaf_combine_pt. cbn [fst snd]. rewrite HT.
  set (Rsub := (stokes_sub_pt m 1 r t).1) in *.
  assert (Hd : 1 - Rsub * r = 1) by (by apply sub_1_zero, mul_zero_l).
  rewrite Hd, !div_1_r, mul_1_r. split; [|done].
  apply add_zero_eqb; [done|].
  apply mul_zero_l; [|done]. by apply mul_zero_r.
Qed.
End SingleLayer.

(** ** The output of [prospectdcore], element by element *)

Section CoreLookup.

Context (m : libm).

Local Open Scope float_scope.

Lemma length_prospect_kall N cab car cbrown cw cm ant
    (kab kcar kbrown kw km kant : vec) (n : nat) :
  length kab = n → length kcar = n → length kbrown = n → length kw = n →
  length km = n → length kant = n →
  length (prospect_kall N cab car cbrown cw cm ant kab kcar kbrown kw km kant) = n.
Proof. intros. unfold prospect_kall. vec_length. Qed.

Lemma length_prospect_tau (kall : vec) : length (prospect_tau m kall) = length kall.
Proof. unfold prospect_tau, ones_like, tau_t1, vexp, vneg. vec_length. Qed.

(** Under valid shapes [prospectdcore] returns, and an element of its
    output is the scalar combination of the elements of the one-layer
    arrays. *)
Lemma prospectdcore_lookup N cab car cbrown cw cm ant
    (nr kab kcar kbrown kw km kant : vec) alpha (i : nat)
    (r t Ra Ta denom : vec) (ri ti Rai Tai : float) :
  shapes_ok nr kab kcar kbrown kw km kant = true →
  refl_trans_one_layer m alpha nr
    (prospect_tau m (prospect_kall N cab car cbrown cw cm ant kab kcar kbrown kw km kant))
  = (r, t, Ra, Ta, denom) →
  r !! i = Some ri → t !! i = Some ti → Ra !! i = Some Rai → Ta !! i = Some Tai →
  let Rsub := (stokes_sub_pt m N ri ti).1 in
  let Tsub := (stokes_sub_pt m N ri ti).2 in
  ∃ refl tran,
    prospectdcore m N cab car cbrown cw cm ant nr kab kcar kbrown kw km kant alpha
    = inr (lambdas, refl, tran)
    ∧ refl !! i = Some (leaf_combine_pt ri ti Rai Tai Rsub Tsub).1
    ∧ tran !! i = Some (leaf_combine_pt ri ti Rai Tai Rsub Tsub).2
    ∧ (stokes_sub m N r t).1 !! i = Some Rsub
    ∧ (stokes_sub m N r t).2 !! i = Some Tsub.
Proof.
  intros Hs Hone Hr Ht HRa HTa Rsub Tsub.
  pose proof Hs as (Hnr & Hkab & Hkcar & Hkbrown & Hkw & Hkm & Hkant)%shapes_ok_true.
  assert (Hlen : length r = length t).
  { eapply length_refl_trans_one_layer in Hone as (-> & -> & _); [done|].
    rewrite length_prospect_tau, Hnr. by apply length_prospect_kall. }
  destruct (stokes_sub_lookup m N r t i ri ti Hlen Hr Ht) as [HR HT].
  unfold prospectdcore. rewrite Hs, Hone. cbn [negb].
  destruct (stokes_sub m N r t) as [Rs Ts]. cbn [fst snd] in HR, HT.
  destruct (leaf_combine_lookup r t Ra Ta Rs Ts i ri ti Rai Tai _ _ Hr Ht HRa HTa HR HT)
    as [Hrefl Htran].
  destruct (leaf_combine r t Ra Ta Rs Ts) as [refl tran]. cbn [fst snd] in Hrefl, Htran.
  by exists refl, tran.
Qed.

End CoreLookup.

(** ** The one layer, element by element *)

Section OneLayerLocal.

Context (m : libm).

Local Open Scope float_scope.

(** An element of [calctav] is computed from the element of [nr] at the
    same index alone. *)
Lemma calctav_lookup_elem alpha (nr : vec) (i : nat) (n : float) :
  nr !! i = Some n → calctav m alpha nr !! i = calctav m alpha [n] !! 0%nat.
Proof.
  intros Hn. unfold calctav, calctav_b1, nd_sub, calctav_sa, vpow, vlog, vneg, vsqrt.
  destruct (neb alpha 90); vec_lookup; reflexivity.
Qed.

Lemma calctav_lookup_is_Some alpha (nr : vec) (i : nat) (n : float) :
  nr !! i = Some n → is_Some (calctav m alpha nr !! i).
Proof.
  intros Hn. apply lookup_lt_is_Some. rewrite length_calctav.
  by apply lookup_lt_is_Some.
Qed.

(** The elements of the arrays of [refl_trans_one_layer] at an index are
    computed from the elements of [nr] and [tau] at that index. *)
Lemma refl_trans_one_layer_local alpha (nr nr' tau tau' : vec) (i : nat) (n x : float)
    (r t Ra Ta denom r' t' Ra' Ta' denom' : vec) :
  nr !! i = Some n → nr' !! i = Some n → tau !! i = Some x → tau' !! i = Some x →
  refl_trans_one_layer m alpha nr tau = (r, t, Ra, Ta, denom) →
  refl_trans_one_layer m alpha nr' tau' = (r', t', Ra', Ta', denom') →
  ∃ ri ti Rai Tai,
    (r !! i = Some ri ∧ t !! i = Some ti ∧ Ra !! i = Some Rai ∧ Ta !! i = Some Tai)
    ∧ (r' !! i = Some ri ∧ t' !! i = Some ti ∧ Ra' !! i = Some Rai ∧ Ta' !! i = Some Tai).
Proof.
  intros Hn Hn' Hx Hx' [= <- <- <- <- _] [= <- <- <- <- _].
  destruct (calctav_lookup_is_Some alpha nr i n Hn) as [a Ha].
  destruct (calctav_lookup_is_Some 90 nr i n Hn) as [b Hb].
  assert (Ha' : calctav m alpha nr' !! i = Some a)
    by (by rewrite (calctav_lookup_elem alpha nr' i n Hn'),
                   <- (calctav_lookup_elem alpha nr i n Hn)).
  assert (Hb' : calctav m 90 nr' !! i = Some b)
    by (by rewrite (calctav_lookup_elem 90 nr' i n Hn'),
                   <- (calctav_lookup_elem 90 nr i n Hn)).
  set (talf := calctav m alpha nr) in *. set (t12 := calctav m 90 nr) in *.
  set (talf' := calctav m alpha nr') in *. set (t12' := calctav m 90 nr') in *.
  do 4 eexists. split; repeat split; vec_lookup; reflexivity.
Qed.

(** The elements of the arrays of [refl_trans_one_layer] at an index are
    what the function returns on the elements of [nr] and [tau] at that
    index, as arrays of one element. *)
Lemma refl_trans_one_layer_elem alpha (nr tau r t Ra Ta denom : vec) (i : nat) (n x : float) :
  nr !! i = Some n → tau !! i = Some x →
  refl_trans_one_layer m alpha nr tau = (r, t, Ra, Ta, denom) →
  ∃ ri ti Rai Tai di,
    refl_trans_one_layer m alpha [n] [x] = ([ri], [ti], [Rai], [Tai], [di])
    ∧ r !! i = Some ri ∧ t !! i = Some ti ∧ Ra !! i = Some Rai ∧ Ta !! i = Some Tai.
Proof.
  intros Hn Hx [= <- <- <- <- _].
  pose proof (calctav_lookup_elem alpha nr i n Hn) as Ha.
  pose proof (calctav_lookup_elem 90 nr i n Hn) as Hb.
  pose proof (length_calctav m alpha [n]) as Hla.
  pose proof (length_calctav m 90 [n]) as Hlb.
  unfold refl_trans_one_layer.
  destruct (calctav m alpha [n]) as [|a [|]]; try discriminate Hla.
  destruct (calctav m 90 [n]) as [|b [|]]; try discriminate Hlb.
  simpl in Ha, Hb.
  set (talf := calctav m alpha nr) in *. set (t12 := calctav m 90 nr) in *.
  do 5 eexists. split; [reflexivity|].
  repeat split; vec_lookup; reflexivity.
Qed.

End OneLayerLocal.

(** * The claims *)

(** ** Dispatch on the version and validation of shapes *)

Section Dispatch.

Local Open Scope float_scope.
Local Open Scope string_scope.

Context (m : libm).
Context (nr_5 kab_5 kcar_5 kbrown_5 kw_5 km_5 : vec).
Context (nr_d kab_d kcar_d kant_d kbrown_d kw_d km_d : vec).

Local Abbreviation run := (run_prospect m nr_5 kab_5 kcar_5 kbrown_5 kw_5 km_5
                         nr_d kab_d kcar_d kant_d kbrown_d kw_d km_d).

(** The call of lines 153 to 161 (PROSPECT-5) and of lines 163 to 171
    (PROSPECT-D). *)
Local Abbreviation call_5 n cab car cbrown cw cm nr kab kcar kbrown kw km alpha :=
  (prospectdcore m n cab car cbrown cw cm 0
     (or_table nr nr_5) (or_table kab kab_5) (or_table kcar kcar_5)
     (or_table kbrown kbrown_5) (or_table kw kw_5) (or_table km km_5)
     (zeros_like km_5) alpha).
Local Abbreviation call_d n cab car cbrown cw cm ant nr kab kcar kbrown kw km kant alpha :=
  (prospectdcore m n cab car cbrown cw cm ant
     (or_table nr nr_d) (or_table kab kab_d) (or_table kcar kcar_d)
     (or_table kbrown kbrown_d) (or_table kw kw_d) (or_table km km_d)
     (or_table kant kant_d) alpha).

(** C1: [run_prospect] takes the PROSPECT-5 path when the version is
    exactly "5", the PROSPECT-D path when it upper-cases to "D", which are
    the two strings "d" and "D" and give the same result, and raises
    "prospect_version can only be 5 or D!" for every other string, among
    them " 5", "5 " and "x". *)
Theorem run_prospect_dispatch n cab car cbrown cw cm ant (v : string)
    nr kab kcar kbrown kw km kant alpha :
  run n cab car cbrown cw cm ant v nr kab kcar kbrown kw km kant alpha
  = (if String.eqb v "5" then
       call_5 n cab car cbrown cw cm nr kab kcar kbrown kw km alpha
     else if String.eqb v "d" || String.eqb v "D" then
       call_d n cab car cbrown cw cm ant nr kab kcar kbrown kw km kant alpha
     else inl version_error)
  ∧ (upper v = "D" ↔ v = "d" ∨ v = "D")
  ∧ run n cab car cbrown cw cm ant "d" nr kab kcar kbrown kw km kant alpha
    = run n cab car cbrown cw cm ant "D" nr kab kcar kbrown kw km kant alpha
  ∧ raises (run n cab car cbrown cw cm ant " 5" nr kab kcar kbrown kw km kant alpha)
      version_error
  ∧ raises (run n cab car cbrown cw cm ant "5 " nr kab kcar kbrown kw km kant alpha)
      version_error
  ∧ raises (run n cab car cbrown cw cm ant "x" nr kab kcar kbrown kw km kant alpha)
      version_error.
Proof.
  split; [|split; [apply upper_is_D | repeat split]].
  unfold run_prospect. rewrite eqb_upper_D. reflexivity.
Qed.

(** C4: under version "5" the anthocyanin content is not used: the call
    passes 0 for it and an array of zeros for its coefficients, so every
    [ant] gives the output of [ant = 0]. *)
Theorem prospect5_ignores_ant n cab car cbrown cw cm ant
    nr kab kcar kbrown kw km kant alpha :
  run n cab car cbrown cw cm ant "5" nr kab kcar kbrown kw km kant alpha
  = run n cab car cbrown cw cm 0 "5" nr kab kcar kbrown kw km kant alpha
  ∧ run n cab car cbrown cw cm ant "5" nr kab kcar kbrown kw km kant alpha
    = call_5 n cab car cbrown cw cm nr kab kcar kbrown kw km alpha
  ∧ zeros_like km_5 = repeat 0 (length km_5).
Proof.
  repeat split. apply zeros_like_repeat.
Qed.

Lemma or_table_bad (x : option vec) (table : vec) :
  bad_override x → length (or_table x table) ≠ 2101%nat.
Proof. by destruct x. Qed.

(** C2: an array of coefficients that has not exactly 2101 elements makes
    [prospectdcore] raise "Leaf spectra don't have the right shape!"; on
    the store the raise leaves every array as it was and creates none, so
    no array of the computation ([tau], [Rsub], [Tsub], the outputs) exists
    when it happens.  A [kab] of 2100 elements passed to [run_prospect]
    under a version it accepts raises the same error. *)
Theorem shape_validation N cab car cbrown cw cm ant
    (nr kab kcar kbrown kw km kant : vec) alpha
    (σ : store) (lnr lkab lkcar lkbrown lkw lkm lkant : loc)
    (v : string) (kab' : vec) (onr okcar okbrown okw okm okant : option vec) :
  (length nr ≠ 2101%nat ∨ length kab ≠ 2101%nat ∨ length kcar ≠ 2101%nat
   ∨ length kbrown ≠ 2101%nat ∨ length kw ≠ 2101%nat ∨ length km ≠ 2101%nat
   ∨ length kant ≠ 2101%nat →
   raises (prospectdcore m N cab car cbrown cw cm ant
             nr kab kcar kbrown kw km kant alpha) shape_error
   ∧ (deref σ lnr = nr → deref σ lkab = kab → deref σ lkcar = kcar →
      deref σ lkbrown = kbrown → deref σ lkw = kw → deref σ lkm = km →
      deref σ lkant = kant →
      prospectdcore_st m N cab car cbrown cw cm ant
        lnr lkab lkcar lkbrown lkw lkm lkant alpha σ = (inl shape_error, σ)))
  ∧ (v = "5" ∨ upper v = "D" → length kab' = 2100%nat →
     raises (run N cab car cbrown cw cm ant v
               onr (Some kab') okcar okbrown okw okm okant alpha) shape_error).
Proof.
  split.
  - intros Hbad. apply shapes_ok_false in Hbad. split.
    + by apply prospectdcore_bad_shape.
    + intros <- <- <- <- <- <- <-. by apply prospectdcore_st_bad_shape.
  - intros Hv Hlen. unfold raises, run_prospect.
    assert (Hkab : ∀ table, length (or_table (Some kab') table) ≠ 2101%nat)
      by (intros table; simpl; lia).
    destruct Hv as [-> | Hv].
    + cbn [String.eqb Ascii.eqb Bool.eqb]. apply prospectdcore_bad_shape, shapes_ok_false.
      right; left. apply Hkab.
    + destruct (String.eqb v "5");
        [|apply String.eqb_eq in Hv; rewrite Hv];
        apply prospectdcore_bad_shape, shapes_ok_false; right; left; apply Hkab.
Qed.

(** C3, as the code has it: under a version [run_prospect] accepts, an
    override of [nr], [kab], [kcar], [kbrown], [kw] or [km] that has not
    2101 elements raises the shape error, and so does an override of
    [kant] when the version is not "5".  Under "5" the call passes an
    array of zeros for the anthocyanin coefficients and the caller's
    [kant] is not read: any two give the same result. *)
Theorem override_shape_validation n cab car cbrown cw cm ant (v : string)
    (nr kab kcar kbrown kw km kant kant' : option vec) alpha :
  v = "5" ∨ upper v = "D" →
  (bad_override nr ∨ bad_override kab ∨ bad_override kcar ∨ bad_override kbrown
   ∨ bad_override kw ∨ bad_override km ∨ (v ≠ "5" ∧ bad_override kant) →
   raises (run n cab car cbrown cw cm ant v nr kab kcar kbrown kw km kant alpha)
     shape_error)
  ∧ run n cab car cbrown cw cm ant "5" nr kab kcar kbrown kw km kant alpha
    = run n cab car cbrown cw cm ant "5" nr kab kcar kbrown kw km kant' alpha.
Proof.
  intros Hv. split; [|reflexivity].
  intros Hbad. unfold raises, run_prospect.
  destruct (String.eqb_spec v "5") as [H5 | H5].
  - apply prospectdcore_bad_shape, shapes_ok_false.
    destruct Hbad as [H|[H|[H|[H|[H|[H|[H _]]]]]]]; try done;
      eauto 8 using or_table_bad.
  - destruct Hv as [Hv | Hv]; [done|]. apply String.eqb_eq in Hv. rewrite Hv.
    apply prospectdcore_bad_shape, shapes_ok_false.
    destruct Hbad as [H|[H|[H|[H|[H|[H|[_ H]]]]]]]; eauto 8 using or_table_bad.
Qed.

End Dispatch.

Section OverrideCounterexample.

Local Open Scope float_scope.
Local Open Scope string_scope.

(** C3 fails as stated: under version "5" a caller's [kant] of one element
    raises nothing; with tables of 2101 rows the call returns a result. *)
Lemma kant_override_unchecked_under_5 :
  bad_override (Some [0.5])
  ∧ is_ok (run_prospect sample_libm
             (flat 1.5) (flat 0.03125) (flat 0.03125) (flat 0) (flat 2) (flat 4)
             (flat 1.5) (flat 0.03125) (flat 0.03125) (flat 0.0625) (flat 0) (flat 2)
             (flat 4)
             1.5 40 8 0 0.0078125 0.0078125 0 "5"
             None None None None None None (Some [0.5]) 40) = true
  ∧ ∀ m nr_5 kab_5 kcar_5 kbrown_5 kw_5 km_5
      nr_d kab_d kcar_d kant_d kbrown_d kw_d km_d n cab car cbrown cw cm ant alpha,
      shapes_ok nr_5 kab_5 kcar_5 kbrown_5 kw_5 km_5 km_5 = true →
      is_ok (run_prospect m nr_5 kab_5 kcar_5 kbrown_5 kw_5 km_5
               nr_d kab_d kcar_d kant_d kbrown_d kw_d km_d
               n cab car cbrown cw cm ant "5"
               None None None None None None (Some [0.5]) alpha) = true.
Proof.
  split; [simpl; lia|]. split; [by vm_compute|].
  intros. unfold run_prospect. cbn [String.eqb Ascii.eqb Bool.eqb or_table].
  apply prospectdcore_good_shape. apply shapes_ok_true.
  apply shapes_ok_true in H. unfold zeros_like. rewrite length_fmap. tauto.
Qed.

End OverrideCounterexample.

(** ** The numeric pipeline *)

Section Numeric.

Context (m : libm).

Local Open Scope float_scope.

(** C5: in [prospectdcore], at an index [i] of arrays of valid shape, the
    element of [kall] is
    [(cab*kab + car*kcar + ant*kant + cbrown*kbrown + cw*kw + cm*km) / N]
    on the elements of the coefficient arrays at [i]; the element of
    [tau] is 1 where it equals 0 and
    [(1 - kall)*exp(-kall) + kall**2 * (-expi(-kall))] where it is greater
    than 0; and the reflectance and the transmittance [prospectdcore]
    returns at [i] are what lines 107 to 139 compute from the element of
    [nr] and from this element of [tau].  The index is any one: each
    wavelength takes its own branch. *)
Theorem tau_piecewise N cab car cbrown cw cm ant
    (nr kab kcar kbrown kw km kant : vec) alpha (i : nat)
    n xab xcar xbrown xw xm xant :
  shapes_ok nr kab kcar kbrown kw km kant = true →
  nr !! i = Some n →
  kab !! i = Some xab → kcar !! i = Some xcar → kbrown !! i = Some xbrown →
  kw !! i = Some xw → km !! i = Some xm → kant !! i = Some xant →
  let kall := prospect_kall N cab car cbrown cw cm ant kab kcar kbrown kw km kant in
  let k := (cab * xab + car * xcar + ant * xant + cbrown * xbrown
            + cw * xw + cm * xm) / N in
  ∃ tau_i,
    kall !! i = Some k
    ∧ prospect_tau m kall !! i = Some tau_i
    ∧ (PrimFloat.eqb k 0 = true → tau_i = 1)
    ∧ (gtb k 0 = true →
       tau_i = (1 - k) * np_exp m (- k) + np_power m k 2 * - expi m (- k))
    ∧ ∃ refl tran ri ti Rai Tai di,
        prospectdcore m N cab car cbrown cw cm ant nr kab kcar kbrown kw km kant alpha
        = inr (lambdas, refl, tran)
        ∧ refl_trans_one_layer m alpha [n] [tau_i] = ([ri], [ti], [Rai], [Tai], [di])
        ∧ let Rsub := (stokes_sub_pt m N ri ti).1 in
          let Tsub := (stokes_sub_pt m N ri ti).2 in
          refl !! i = Some (Rai + Tai * Rsub * ti / (1 - Rsub * ri))
          ∧ tran !! i = Some (Tai * Tsub / (1 - Rsub * ri)).
Proof.
  intros Hs Hn Hab Hcar Hbrown Hw Hm Hant kall k.
  assert (Hk : kall !! i = Some k) by (by apply prospect_kall_lookup).
  pose proof (prospect_tau_lookup m kall i k Hk) as Htau.
  exists (tau_pt m k). split; [exact Hk|]. split; [exact Htau|].
  split; [|split].
  - intros H. unfold tau_pt. by rewrite (eqb_not_gtb k 0 H).
  - intros H. unfold tau_pt. by rewrite H.
  - destruct (refl_trans_one_layer m alpha nr (prospect_tau m kall))
      as [[[[r t] Ra] Ta] denom] eqn:Hone.
    destruct (refl_trans_one_layer_elem m alpha nr _ r t Ra Ta denom i n _ Hn Htau Hone)
      as (ri & ti & Rai & Tai & di & Helem & Hr & Ht & HRa & HTa).
    destruct (prospectdcore_lookup m N cab car cbrown cw cm ant nr kab kcar kbrown kw km kant
                alpha i r t Ra Ta denom ri ti Rai Tai Hs Hone Hr Ht HRa HTa)
      as (refl & tran & Hcore & Hrefl & Htran & _).
    exists refl, tran, ri, ti, Rai, Tai, di.
    split; [exact Hcore|]. split; [exact Helem|]. by split.
Qed.

(** C6: in [prospectdcore], on arrays of valid shape and with [r], [t],
    [Ra], [Ta] the arrays of the one layer, at an index where
    [r + t >= 1], [Tsub] is [t / (t + (1 - t) * (N - 1))] and [Rsub] is
    [1 - Tsub]; at an index where [r + t < 1] they keep the values of the
    Stokes system, [Rsub = a*(bN2 - 1) / (a*a*bN2 - 1)] and
    [Tsub = bNm1*(a*a - 1) / (a*a*bN2 - 1)], with [bNm1 = b**(N-1)] and
    [bN2 = bNm1*bNm1]; and the reflectance and the transmittance
    [prospectdcore] returns at the index are those lines 137 to 139
    compute from these [Rsub] and [Tsub].  The index is any one: each
    wavelength takes its own branch. *)
Theorem stokes_zero_absorption N cab car cbrown cw cm ant
    (nr kab kcar kbrown kw km kant : vec) alpha (i : nat)
    (r t Ra Ta denom : vec) (ri ti Rai Tai : float) :
  shapes_ok nr kab kcar kbrown kw km kant = true →
  refl_trans_one_layer m alpha nr
    (prospect_tau m (prospect_kall N cab car cbrown cw cm ant kab kcar kbrown kw km kant))
  = (r, t, Ra, Ta, denom) →
  r !! i = Some ri → t !! i = Some ti → Ra !! i = Some Rai → Ta !! i = Some Tai →
  ∃ refl tran Rsub_i Tsub_i,
    prospectdcore m N cab car cbrown cw cm ant nr kab kcar kbrown kw km kant alpha
    = inr (lambdas, refl, tran)
    ∧ (stokes_sub m N r t).1 !! i = Some Rsub_i
    ∧ (stokes_sub m N r t).2 !! i = Some Tsub_i
    ∧ (geb (ri + ti) 1 = true →
       Tsub_i = ti / (ti + (1 - ti) * (N - 1))
       ∧ Rsub_i = 1 - ti / (ti + (1 - ti) * (N - 1)))
    ∧ (PrimFloat.ltb (ri + ti) 1 = true →
       let D := PrimFloat.sqrt ((1 + ri + ti) * (1 + ri - ti) * (1 - ri + ti) * (1 - ri - ti)) in
       let a := (1 + ri * ri - ti * ti + D) / (2 * ri) in
       let b := (1 - ri * ri + ti * ti + D) / (2 * ti) in
       let bNm1 := np_power m b (N - 1) in
       let bN2 := bNm1 * bNm1 in
       Rsub_i = a * (bN2 - 1) / (a * a * bN2 - 1)
       ∧ Tsub_i = bNm1 * (a * a - 1) / (a * a * bN2 - 1))
    ∧ refl !! i = Some (Rai + Tai * Rsub_i * ti / (1 - Rsub_i * ri))
    ∧ tran !! i = Some (Tai * Tsub_i / (1 - Rsub_i * ri)).
Proof.
  intros Hs Hone Hr Ht HRa HTa.
  destruct (prospectdcore_lookup m N cab car cbrown cw cm ant nr kab kcar kbrown kw km kant
              alpha i r t Ra Ta denom ri ti Rai Tai Hs Hone Hr Ht HRa HTa)
    as (refl & tran & Hcore & Hrefl & Htran & HR & HT).
  exists refl, tran, (stokes_sub_pt m N ri ti).1, (stokes_sub_pt m N ri ti).2.
  split; [exact Hcore|]. split; [exact HR|]. split; [exact HT|].
  split; [|split; [|by split]].
  - intros H. unfold stokes_sub_pt. by rewrite H.
  - intros H. unfold stokes_sub_pt. by rewrite (ltb_not_geb _ _ H).
Qed.

(** C8: [calctav] has [b1 = 0] when [alpha == 90] and
    [b1 = sqrt((sa*sa - npx/2)*(sa*sa - npx/2) + k)] for every other
    [alpha]; from [b1] on, the same expression in [ts] and [tp1] to [tp5]
    gives [tav = (ts + tp) / (2*sa**2)] for every angle. *)
Theorem calctav_b1_branch alpha (nr : vec) (i : nat) (n : float) :
  nr !! i = Some n →
  let sa := np_sin m (np_deg2rad m alpha) in
  let n2 := n * n in
  let npx := n2 + 1 in
  let nm := n2 - 1 in
  let a := (n + 1) * (n + 1) / 2 in
  let k := - (n2 - 1) * (n2 - 1) / 4 in
  (PrimFloat.eqb alpha 90 = true → calctav_b1 m alpha nr = Scalar 0)
  ∧ (PrimFloat.eqb alpha 90 = false →
     nd_at (calctav_b1 m alpha nr) i
     = Some (PrimFloat.sqrt ((sa * sa - npx / 2) * (sa * sa - npx / 2) + k)))
  ∧ ∃ b1, nd_at (calctav_b1 m alpha nr) i = Some b1
     ∧ let b2 := sa * sa - npx / 2 in
       let b := b1 - b2 in
       let b3 := np_power m b 3 in
       let a3 := np_power m a 3 in
       let ts := (np_power m k 2 / (6 * b3) + k / b - b / 2)
                 - (np_power m k 2 / (6 * a3) + k / a - a / 2) in
       let tp1 := -2 * n2 * (b - a) / np_power m npx 2 in
       let tp2 := -2 * n2 * npx * np_log m (b / a) / np_power m nm 2 in
       let tp3 := n2 * (1 / b - 1 / a) / 2 in
       let tp4 := 16 * np_power m n2 2 * (np_power m n2 2 + 1)
                  * np_log m ((2 * npx * b - np_power m nm 2)
                              / (2 * npx * a - np_power m nm 2))
                  / (np_power m npx 3 * np_power m nm 2) in
       let tp5 := 16 * np_power m n2 3
                  * (1 / (2 * npx * b - np_power m nm 2)
                     - 1 / (2 * npx * a - np_power m nm 2))
                  / np_power m npx 3 in
       let tp := tp1 + tp2 + tp3 + tp4 + tp5 in
       calctav m alpha nr !! i = Some ((ts + tp) / (2 * np_power m sa 2)).
Proof.
  intros Hn sa n2 npx nm a k.
  unfold calctav, calctav_b1, neb, nd_sub, calctav_sa, vpow, vlog, vneg, vsqrt.
  destruct (PrimFloat.eqb alpha 90); cbn [negb nd_at].
  - split; [done|]. split; [done|]. eexists; split; [reflexivity|].
    vec_lookup. reflexivity.
  - split; [done|]. split.
    + intros _. vec_lookup. reflexivity.
    + eexists; split; [vec_lookup; reflexivity|]. vec_lookup. reflexivity.
Qed.

End Numeric.

Section SingleLayerClaim.

Context (m : libm).

Local Open Scope float_scope.

(** C7, as the code has it: for [N = 1] and arrays of valid shape, at
    every wavelength where the one-layer values are regular (finite, the
    Stokes quotients not zero over zero), the inner stack is [Rsub = 0]
    (of either sign) and [Tsub = 1], and the reflectance and transmittance
    of the leaf are the top-surface [Ra] and [Ta] of
    [refl_trans_one_layer]; the library's power must return 1 for the
    exponent 0, as IEEE [pow] does. *)
Theorem single_layer_identity cab car cbrown cw cm ant
    (nr kab kcar kbrown kw km kant : vec) alpha (i : nat)
    (r t Ra Ta denom : vec) (ri ti Rai Tai : float) :
  (∀ x, np_power m x 0 = 1) →
  shapes_ok nr kab kcar kbrown kw km kant = true →
  refl_trans_one_layer m alpha nr
    (prospect_tau m (prospect_kall 1 cab car cbrown cw cm ant kab kcar kbrown kw km kant))
  = (r, t, Ra, Ta, denom) →
  r !! i = Some ri → t !! i = Some ti → Ra !! i = Some Rai → Ta !! i = Some Tai →
  single_layer_regular ri ti Rai Tai = true →
  ∃ refl tran refl_i tran_i Rsub_i,
    prospectdcore m 1 cab car cbrown cw cm ant nr kab kcar kbrown kw km kant alpha
    = inr (lambdas, refl, tran)
    ∧ refl !! i = Some refl_i ∧ tran !! i = Some tran_i
    ∧ PrimFloat.eqb refl_i Rai = true ∧ tran_i = Tai
    ∧ (stokes_sub m 1 r t).1 !! i = Some Rsub_i ∧ is_zero Rsub_i = true
    ∧ (stokes_sub m 1 r t).2 !! i = Some 1.
Proof.
  intros Hpow Hs Hone Hr Ht HRa HTa Hreg.
  destruct (prospectdcore_lookup m 1 cab car cbrown cw cm ant nr kab kcar kbrown kw km kant
              alpha i r t Ra Ta denom ri ti Rai Tai Hs Hone Hr Ht HRa HTa)
    as (refl & tran & Hcore & Hrefl & Htran & HR & HT).
  destruct (single_layer_pt m Hpow ri ti Rai Tai Hreg) as (Hz & H1 & Heq & HTai).
  exists refl, tran. do 3 eexists.
  split; [exact Hcore|]. split; [exact Hrefl|]. split; [exact Htran|].
  split; [exact Heq|]. split; [exact HTai|]. split; [exact HR|]. split; [exact Hz|].
  by rewrite HT, H1.
Qed.

(** A refractive index that is not a number makes [calctav] return one. *)
Lemma calctav_nan alpha (nr : vec) (i : nat) :
  nr !! i = Some nan → calctav m alpha nr !! i = Some nan.
Proof.
  intros Hn. unfold calctav, calctav_b1, nd_sub, calctav_sa, vpow, vlog, vneg, vsqrt.
  destruct (neb alpha 90); vec_lookup; f_equal;
    change (nan * nan) with nan; change (-2 * nan) with nan;
    by rewrite !mul_nan_l, !div_nan_l, !add_nan_l, add_nan_r, div_nan_l.
Qed.

Lemma one_layer_nan alpha (nr tau r t Ra Ta denom : vec) (i : nat) (x : float) :
  nr !! i = Some nan → tau !! i = Some x →
  refl_trans_one_layer m alpha nr tau = (r, t, Ra, Ta, denom) →
  Ra !! i = Some nan ∧ is_Some (r !! i) ∧ is_Some (t !! i) ∧ is_Some (Ta !! i).
Proof.
  intros Hn Htau [= <- <- <- <- _].
  pose proof (calctav_nan alpha nr i Hn) as Half.
  pose proof (calctav_nan 90 nr i Hn) as H12.
  set (talf := calctav m alpha nr) in *. set (t12 := calctav m 90 nr) in *.
  repeat split; vec_lookup; [|by eexists..].
  f_equal. change (1 - nan) with nan. apply add_nan_l.
Qed.

End SingleLayerClaim.

Section SingleLayerCounterexample.

Local Open Scope float_scope.

(** C7 fails as stated: arrays of valid shape whose refractive index is
    not a number give, for [N = 1] and whatever the library functions
    are, a reflectance and an [Ra] that are both NaN, which IEEE equality
    ([==]) tells apart. *)
Lemma nan_refractive_index_counterexample :
  shapes_ok (flat nan) (flat 0.03125) (flat 0.03125) (flat 0) (flat 2) (flat 4) (flat 0)
  = true
  ∧ ∀ m : libm, ∃ r t Ra Ta denom refl tran refl_0 Ra_0,
      refl_trans_one_layer m 40 (flat nan)
        (prospect_tau m (prospect_kall 1 40 8 0 0.0078125 0.0078125 0
                           (flat 0.03125) (flat 0.03125) (flat 0) (flat 2) (flat 4) (flat 0)))
      = (r, t, Ra, Ta, denom)
      ∧ prospectdcore m 1 40 8 0 0.0078125 0.0078125 0
          (flat nan) (flat 0.03125) (flat 0.03125) (flat 0) (flat 2) (flat 4) (flat 0) 40
        = inr (lambdas, refl, tran)
      ∧ refl !! 0%nat = Some refl_0 ∧ Ra !! 0%nat = Some Ra_0
      ∧ PrimFloat.eqb refl_0 Ra_0 = false.
Proof.
  split; [by vm_compute|]. intros m.
  set (kall := prospect_kall _ _ _ _ _ _ _ _ _ _ _ _ _).
  destruct (refl_trans_one_layer m 40 (flat nan) (prospect_tau m kall))
    as [[[[r t] Ra] Ta] denom] eqn:Hone.
  assert (Hk : ∃ x, prospect_tau m kall !! 0%nat = Some x).
  { apply lookup_lt_is_Some. rewrite length_prospect_tau.
    unfold kall. rewrite (length_prospect_kall _ _ _ _ _ _ _ _ _ _ _ _ _ 2101)
      by reflexivity. lia. }
  destruct Hk as [x Hx].
  destruct (one_layer_nan m 40 (flat nan) _ r t Ra Ta denom 0 x eq_refl Hx Hone)
    as (HRa & [ri Hr] & [ti Ht] & [Tai HTa]).
  destruct (prospectdcore_lookup m 1 40 8 0 0.0078125 0.0078125 0
              (flat nan) (flat 0.03125) (flat 0.03125) (flat 0) (flat 2) (flat 4) (flat 0)
              40 0 r t Ra Ta denom ri ti nan Tai eq_refl Hone Hr Ht HRa HTa)
    as (refl & tran & Hcore & Hrefl & _).
  exists r, t, Ra, Ta, denom, refl, tran. do 2 eexists.
  split; [done|]. split; [exact Hcore|]. split; [exact Hrefl|]. split; [exact HRa|].
  unfold leaf_combine_pt. cbn [fst]. by rewrite add_nan_l.
Qed.

End SingleLayerCounterexample.

(** ** Effects on the store *)

Section SideEffects.

Local Open Scope float_scope.

Context (m : libm).
Context (nr_5 kab_5 kcar_5 kbrown_5 kw_5 km_5 : loc).
Context (nr_d kab_d kcar_d kant_d kbrown_d kw_d km_d : loc).

Local Abbreviation run_st :=
  (run_prospect_st m nr_5 kab_5 kcar_5 kbrown_5 kw_5 km_5
     nr_d kab_d kcar_d kant_d kbrown_d kw_d km_d).
Local Abbreviation run_on :=
  (run_prospect_on m nr_5 kab_5 kcar_5 kbrown_5 kw_5 km_5
     nr_d kab_d kcar_d kant_d kbrown_d kw_d km_d).
Local Abbreviation inputs_ok :=
  (inputs_allocated nr_5 kab_5 kcar_5 kbrown_5 kw_5 km_5
     nr_d kab_d kcar_d kant_d kbrown_d kw_d km_d).

(** C10: a call of [run_prospect] on a store that holds the tables and
    the caller's arrays leaves every array of that store as it was (the
    masked writes go to arrays the call created), returns its two output
    arrays at new addresses, and computes the function [run_prospect] of
    the arrays' elements; a second call on the store the first one left
    returns the same values. *)
Theorem run_prospect_side_effect_free (σ : store) n cab car cbrown cw cm ant v
    nr kab kcar kbrown kw km kant alpha :
  inputs_ok σ nr kab kcar kbrown kw km kant →
  let run := run_st n cab car cbrown cw cm ant v nr kab kcar kbrown kw km kant alpha in
  let pure := run_on σ n cab car cbrown cw cm ant v nr kab kcar kbrown kw km kant alpha in
  let σ' := (run σ).2 in
  returns_fresh σ pure (run σ).1 σ'
  ∧ (∀ l, allocated σ l → deref σ' l = deref σ l)
  ∧ returns_fresh σ' pure (run σ').1 (run σ').2.
Proof.
  intros Hin run pure σ'.
  pose proof (run_prospect_st_spec m _ _ _ _ _ _ _ _ _ _ _ _ _ σ n cab car cbrown cw cm ant v
                nr kab kcar kbrown kw km kant alpha Hin) as H1.
  unfold wp in H1. fold run in H1. fold pure in H1. fold σ' in H1.
  pose proof H1 as [Hsub _].
  split; [exact H1|]. split; [intros l Hl; by apply deref_weaken|].
  assert (Hin' : inputs_ok σ' nr kab kcar kbrown kw km kant).
  { destruct Hin as [Ht Ho]. split.
    - eapply Forall_impl; [exact Ht|]. intros l. by apply allocated_weaken.
    - eapply Forall_impl; [exact Ho|]. intros [l|]; [|done]. by apply allocated_weaken. }
  pose proof (run_prospect_st_spec m _ _ _ _ _ _ _ _ _ _ _ _ _ σ' n cab car cbrown cw cm ant v
                nr kab kcar kbrown kw km kant alpha Hin') as H2.
  unfold wp in H2. fold run in H2.
  by rewrite (run_prospect_on_weaken m _ _ _ _ _ _ _ _ _ _ _ _ _ σ σ') in H2.
Qed.

End SideEffects.

(** * Further properties *)

(** ** More IEEE binary64 facts *)

Section MoreFloatFacts.

Local Open Scope float_scope.

(** [x < y] excludes [y < x]. *)
Lemma ltb_not_gtb (x y : float) : PrimFloat.ltb x y = true → gtb x y = false.
Proof.
  unfold gtb. rewrite !FloatAxioms.ltb_spec. unfold SFltb.
  rewrite (SFcompare_antisym (Prim2SF x) (Prim2SF y)).
  by destruct (SFcompare (Prim2SF x) (Prim2SF y)) as [[]|].
Qed.

(** A NaN is not greater than anything. *)
Lemma nan_not_gtb (x y : float) : is_nan x = true → gtb x y = false.
Proof.
  intros Hx%is_nan_spec. unfold gtb. rewrite FloatAxioms.ltb_spec, Hx. unfold SFltb.
  by destruct (Prim2SF y).
Qed.

(** A zero is not greater than zero. *)
Lemma zero_not_gtb (x : float) : is_zero x = true → gtb x 0 = false.
Proof. intros H. by apply eqb_not_gtb. Qed.

(** IEEE equality with a finite number that is not zero is identity. *)
Lemma eqb_finite_eq (x y : float) s my e :
  Prim2SF y = S754_finite s my e → PrimFloat.eqb x y = true → x = y.
Proof.
  intros Hy. rewrite FloatAxioms.eqb_spec, Hy. unfold SFeqb. intros H.
  apply Prim2SF_inj. rewrite Hy.
  destruct (Prim2SF x) as [sx|sx| |sx mx ex]; simpl in H;
    try discriminate; try (by destruct sx); try (by destruct s).
  destruct sx, s; try discriminate;
    destruct (ex ?= e)%Z eqn:He; try discriminate;
    apply Z.compare_eq in He; subst;
    destruct (PosDef.Pos.compare_cont Eq mx my) eqn:Hm; try discriminate;
    apply Pos.compare_eq in Hm; by subst.
Qed.

Lemma same_or_zeros_add_r (x y d : float) :
  same_or_zeros x y → same_or_zeros (x + d) (y + d).
Proof.
  intros [-> | [[sx Hx]%is_zero_spec [sy Hy]%is_zero_spec]]; [by left|].
  destruct (Prim2SF d) as [sd|sd| |sd md ed] eqn:Hd.
  - right. split; apply is_zero_spec; rewrite add_spec, ?Hx, ?Hy, Hd;
      [destruct sx, sd | destruct sy, sd]; simpl; eauto.
  - left. apply Prim2SF_inj. by rewrite !add_spec, Hx, Hy, Hd.
  - left. apply Prim2SF_inj. by rewrite !add_spec, Hx, Hy, Hd.
  - left. apply Prim2SF_inj. by rewrite !add_spec, Hx, Hy, Hd.
Qed.

Lemma same_or_zeros_add_l (s x y : float) :
  same_or_zeros x y → same_or_zeros (s + x) (s + y).
Proof.
  intros [-> | [[sx Hx]%is_zero_spec [sy Hy]%is_zero_spec]]; [by left|].
  destruct (Prim2SF s) as [ss|ss| |ss ms es] eqn:Hs.
  - right. split; apply is_zero_spec; rewrite add_spec, ?Hx, ?Hy, Hs;
      [destruct ss, sx | destruct ss, sy]; simpl; eauto.
  - left. apply Prim2SF_inj. by rewrite !add_spec, Hx, Hy, Hs.
  - left. apply Prim2SF_inj. by rewrite !add_spec, Hx, Hy, Hs.
  - left. apply Prim2SF_inj. by rewrite !add_spec, Hx, Hy, Hs.
Qed.

Lemma same_or_zeros_div (x y n : float) :
  same_or_zeros x y → same_or_zeros (x / n) (y / n).
Proof.
  intros [-> | [[sx Hx]%is_zero_spec [sy Hy]%is_zero_spec]]; [by left|].
  destruct (Prim2SF n) as [sn|sn| |sn mn en] eqn:Hn.
  - left. apply Prim2SF_inj. by rewrite !div_spec, Hx, Hy, Hn.
  - right. split; apply is_zero_spec; rewrite div_spec, ?Hx, ?Hy, Hn; simpl; eauto.
  - left. apply Prim2SF_inj. by rewrite !div_spec, Hx, Hy, Hn.
  - right. split; apply is_zero_spec; rewrite div_spec, ?Hx, ?Hy, Hn; simpl; eauto.
Qed.

Lemma same_or_zeros_mul_zero (x y : float) :
  is_finite x = true → is_finite y = true → same_or_zeros (0 * x) (0 * y).
Proof. intros Hx Hy. right. split; by apply mul_zero_l. Qed.

End MoreFloatFacts.

(** ** The shape of what [prospectdcore] returns *)

Section OutputShape.

Context (m : libm).

Local Open Scope float_scope.

Lemma length_stokes_sub N (r t : vec) :
  length r = length t →
  length (stokes_sub m N r t).1 = length r
  ∧ length (stokes_sub m N r t).2 = length r.
Proof.
  intros Hlen. unfold stokes_sub.
  destruct (length_stokes_general m N r t Hlen) as [HR HT].
  destruct (stokes_general m N r t) as [Rsub Tsub]. cbn [fst snd] in *.
  by rewrite !length_mask_set.
Qed.

Lemma length_leaf_combine (r t Ra Ta Rsub Tsub : vec) (n : nat) :
  length r = n → length t = n → length Ra = n → length Ta = n →
  length Rsub = n → length Tsub = n →
  length (leaf_combine r t Ra Ta Rsub Tsub).1 = n
  ∧ length (leaf_combine r t Ra Ta Rsub Tsub).2 = n.
Proof. intros. unfold leaf_combine. cbn [fst snd]. split; vec_length. Qed.

Lemma lambdas_lookup (i : nat) :
  (i < 2101)%nat → lambdas !! i = Some (400 + Z.of_nat i)%Z.
Proof.
  intros Hi. unfold lambdas, np_arange. apply lookup_seqZ. lia.
Qed.

Lemma prospectdcore_inr_shapes N cab car cbrown cw cm ant
    (nr kab kcar kbrown kw km kant : vec) alpha wv refl tran :
  prospectdcore m N cab car cbrown cw cm ant nr kab kcar kbrown kw km kant alpha
  = inr (wv, refl, tran) →
  shapes_ok nr kab kcar kbrown kw km kant = true.
Proof.
  intros Hres. destruct (shapes_ok nr kab kcar kbrown kw km kant) eqn:Hs; [done|].
  by rewrite (prospectdcore_bad_shape m _ _ _ _ _ _ _ _ _ _ _ _ _ _ _ Hs) in Hres.
Qed.

(** What [prospectdcore] returns has the lengths of the grid. *)
Lemma prospectdcore_inr_length N cab car cbrown cw cm ant
    (nr kab kcar kbrown kw km kant : vec) alpha wv refl tran :
  prospectdcore m N cab car cbrown cw cm ant nr kab kcar kbrown kw km kant alpha
  = inr (wv, refl, tran) →
  wv = lambdas ∧ length refl = 2101%nat ∧ length tran = 2101%nat.
Proof.
  intros Hres. pose proof (prospectdcore_inr_shapes _ _ _ _ _ _ _ _ _ _ _ _ _ _ _ _ _ _ Hres) as Hs.
  unfold prospectdcore in Hres. rewrite Hs in Hres. cbn [negb] in Hres.
  apply shapes_ok_true in Hs as (Hnr & Hkab & Hkcar & Hkbrown & Hkw & Hkm & Hkant).
  set (tau := prospect_tau m _) in Hres.
  assert (Htau : length tau = length nr).
  { unfold tau. rewrite length_prospect_tau, Hnr. by apply length_prospect_kall. }
  destruct (refl_trans_one_layer m alpha nr tau) as [[[[r t] Ra] Ta] denom] eqn:Hone.
  destruct (length_refl_trans_one_layer m alpha nr tau r t Ra Ta denom Htau Hone)
    as (Hr & Ht & HRa & HTa).
  rewrite Hnr in Hr, Ht, HRa, HTa.
  destruct (length_stokes_sub N r t ltac:(congruence)) as [HRs HTs].
  rewrite Hr in HRs, HTs.
  destruct (stokes_sub m N r t) as [Rsub Tsub]. cbn [fst snd] in HRs, HTs.
  destruct (length_leaf_combine r t Ra Ta Rsub Tsub 2101 Hr Ht HRa HTa HRs HTs)
    as [Hrefl Htran].
  destruct (leaf_combine r t Ra Ta Rsub Tsub) as [refl' tran'].
  cbn [fst snd] in Hrefl, Htran. by injection Hres as <- <- <-.
Qed.

(** X1: [prospectdcore] returns exactly when the seven arrays have 2101
    elements each, its only failure is the shape error, and what it
    returns is the grid 400, 401, ..., 2500 with a reflectance and a
    transmittance of 2101 elements. *)
Theorem prospectdcore_returns_grid N cab car cbrown cw cm ant
    (nr kab kcar kbrown kw km kant : vec) alpha :
  let res := prospectdcore m N cab car cbrown cw cm ant
               nr kab kcar kbrown kw km kant alpha in
  (is_ok res = true ↔
   length nr = 2101%nat ∧ length kab = 2101%nat ∧ length kcar = 2101%nat
   ∧ length kbrown = 2101%nat ∧ length kw = 2101%nat ∧ length km = 2101%nat
   ∧ length kant = 2101%nat)
  ∧ (is_ok res = false → raises res shape_error)
  ∧ ∀ wv refl tran, res = inr (wv, refl, tran) →
      length wv = 2101%nat ∧ length refl = 2101%nat ∧ length tran = 2101%nat
      ∧ ∀ i : nat, (i < 2101)%nat → wv !! i = Some (400 + Z.of_nat i)%Z.
Proof.
  intros res. subst res. split; [|split].
  - destruct (shapes_ok nr kab kcar kbrown kw km kant) eqn:Hs.
    + rewrite (prospectdcore_good_shape m _ _ _ _ _ _ _ _ _ _ _ _ _ _ _ Hs).
      by rewrite <- shapes_ok_true.
    + rewrite (prospectdcore_bad_shape m _ _ _ _ _ _ _ _ _ _ _ _ _ _ _ Hs).
      split; [discriminate|]. intros H%shapes_ok_true. congruence.
  - destruct (shapes_ok nr kab kcar kbrown kw km kant) eqn:Hs.
    + by rewrite (prospectdcore_good_shape m _ _ _ _ _ _ _ _ _ _ _ _ _ _ _ Hs).
    + by rewrite (prospectdcore_bad_shape m _ _ _ _ _ _ _ _ _ _ _ _ _ _ _ Hs).
  - intros wv refl tran Hres.
    apply prospectdcore_inr_length in Hres as (-> & Hrefl & Htran).
    repeat split; try done. apply lambdas_lookup.
Qed.

End OutputShape.

(** ** The anthocyanin term *)

Section ZeroAnthocyanin.

Context (m : libm).

Local Open Scope float_scope.

Lemma same_or_zeros_tau (k k' : float) :
  same_or_zeros k k' → tau_pt m k = tau_pt m k'.
Proof.
  intros [-> | [Hk Hk']]; [done|].
  unfold tau_pt. by rewrite !zero_not_gtb.
Qed.

Lemma same_or_zeros_kall N cab car cbrown cw cm xab xcar xbrown xw xm xant xant' :
  is_finite xant = true → is_finite xant' = true →
  same_or_zeros (kall_pt N cab car cbrown cw cm 0 xab xcar xbrown xw xm xant)
                (kall_pt N cab car cbrown cw cm 0 xab xcar xbrown xw xm xant').
Proof.
  intros Hx Hx'. unfold kall_pt.
  apply same_or_zeros_div. do 3 apply same_or_zeros_add_r.
  apply same_or_zeros_add_l. by apply same_or_zeros_mul_zero.
Qed.

(** With a zero anthocyanin content, [tau] is the same for any two finite
    arrays of anthocyanin coefficients of one length. *)
Lemma prospect_tau_zero_ant N cab car cbrown cw cm
    (kab kcar kbrown kw km kant kant' : vec) :
  length kant = length kant' →
  Forall (λ x, is_finite x = true) kant → Forall (λ x, is_finite x = true) kant' →
  prospect_tau m (prospect_kall N cab car cbrown cw cm 0 kab kcar kbrown kw km kant)
  = prospect_tau m (prospect_kall N cab car cbrown cw cm 0 kab kcar kbrown kw km kant').
Proof.
  intros Hlen Hfin Hfin'.
  set (kall := prospect_kall _ _ _ _ _ _ _ _ _ _ _ _ kant).
  set (kall' := prospect_kall _ _ _ _ _ _ _ _ _ _ _ _ kant').
  assert (Hkl : length kall' = length kall).
  { unfold kall, kall', prospect_kall.
    repeat first [ rewrite length_fmap | rewrite length_zip_with ]. by rewrite Hlen. }
  apply (list_eq_same_length _ _ (length kall)).
  - by rewrite length_prospect_tau.
  - by rewrite length_prospect_tau.
  - intros i x y Hi Hx Hy.
    assert (Hin : ∀ v : vec, (length kall ≤ length v)%nat → is_Some (v !! i))
      by (intros v Hv; apply lookup_lt_is_Some; lia).
    assert (Hlens : (length kall ≤ length kab ∧ length kall ≤ length kcar
                     ∧ length kall ≤ length kbrown ∧ length kall ≤ length kw
                     ∧ length kall ≤ length km ∧ length kall ≤ length kant)%nat).
    { unfold kall, prospect_kall.
      repeat first [ rewrite length_fmap | rewrite length_zip_with ]. lia. }
    destruct Hlens as (H1 & H2 & H3 & H4 & H5 & H6).
    destruct (Hin kab H1) as [xab Hab]. destruct (Hin kcar H2) as [xcar Hcar].
    destruct (Hin kbrown H3) as [xbrown Hbrown]. destruct (Hin kw H4) as [xw Hw].
    destruct (Hin km H5) as [xm Hm]. destruct (Hin kant H6) as [xant Hant].
    destruct (Hin kant' ltac:(lia)) as [xant' Hant'].
    pose proof (prospect_kall_lookup N cab car cbrown cw cm 0 kab kcar kbrown kw km kant
                  i xab xcar xbrown xw xm xant Hab Hcar Hbrown Hw Hm Hant) as Hk.
    pose proof (prospect_kall_lookup N cab car cbrown cw cm 0 kab kcar kbrown kw km kant'
                  i xab xcar xbrown xw xm xant' Hab Hcar Hbrown Hw Hm Hant') as Hk'.
    fold kall in Hk. fold kall' in Hk'.
    rewrite (prospect_tau_lookup m kall i _ Hk) in Hx.
    rewrite (prospect_tau_lookup m kall' i _ Hk') in Hy.
    injection Hx as <-. injection Hy as <-.
    apply same_or_zeros_tau, same_or_zeros_kall.
    + exact (Forall_lookup_1 _ kant i xant Hfin Hant).
    + exact (Forall_lookup_1 _ kant' i xant' Hfin' Hant').
Qed.

(** X2: With a zero anthocyanin content, the result of [prospectdcore] does
    not depend on the anthocyanin coefficients, as long as they are
    finite: any two finite arrays of one length give the same result. *)
Theorem zero_ant_ignores_kant N cab car cbrown cw cm
    (nr kab kcar kbrown kw km kant kant' : vec) alpha :
  length kant = length kant' →
  Forall (λ x, is_finite x = true) kant → Forall (λ x, is_finite x = true) kant' →
  prospectdcore m N cab car cbrown cw cm 0 nr kab kcar kbrown kw km kant alpha
  = prospectdcore m N cab car cbrown cw cm 0 nr kab kcar kbrown kw km kant' alpha.
Proof.
  intros Hlen Hfin Hfin'. unfold prospectdcore.
  rewrite (prospect_tau_zero_ant N cab car cbrown cw cm kab kcar kbrown kw km kant kant')
    by done.
  replace (shapes_ok nr kab kcar kbrown kw km kant)
    with (shapes_ok nr kab kcar kbrown kw km kant'); [done|].
  unfold shapes_ok. cbn [fmap list_fmap]. by rewrite Hlen.
Qed.

End ZeroAnthocyanin.

(** ** One wavelength at a time *)

Section Wavelengths.

Context (m : libm).

Local Open Scope float_scope.

(** X3: [calctav] keeps the length of [nr], and an element of its result is
    computed from the element of [nr] at the same index alone. *)
Theorem calctav_elementwise alpha (nr : vec) :
  length (calctav m alpha nr) = length nr
  ∧ (∀ (i : nat) (n : float), nr !! i = Some n →
       calctav m alpha nr !! i = calctav m alpha [n] !! 0%nat)
  ∧ ∀ (nr' : vec) (i : nat), nr !! i = nr' !! i →
       calctav m alpha nr !! i = calctav m alpha nr' !! i.
Proof.
  split; [apply length_calctav|]. split; [apply calctav_lookup_elem|].
  intros nr' i Hi. destruct (nr !! i) as [n|] eqn:Hn.
  - by rewrite (calctav_lookup_elem m alpha nr i n Hn),
               (calctav_lookup_elem m alpha nr' i n).
  - symmetry in Hi. apply lookup_ge_None in Hn, Hi.
    rewrite !(proj2 (lookup_ge_None _ _)); [done | |]; by rewrite length_calctav.
Qed.

(** X4: The reflectance and the transmittance at a wavelength depend on the
    elements of the seven arrays at that wavelength alone. *)
Theorem prospectdcore_wavelength_local N cab car cbrown cw cm ant alpha
    (nr kab kcar kbrown kw km kant nr' kab' kcar' kbrown' kw' km' kant' : vec)
    (i : nat) wv refl tran wv' refl' tran' :
  prospectdcore m N cab car cbrown cw cm ant nr kab kcar kbrown kw km kant alpha
  = inr (wv, refl, tran) →
  prospectdcore m N cab car cbrown cw cm ant nr' kab' kcar' kbrown' kw' km' kant' alpha
  = inr (wv', refl', tran') →
  nr !! i = nr' !! i → kab !! i = kab' !! i → kcar !! i = kcar' !! i →
  kbrown !! i = kbrown' !! i → kw !! i = kw' !! i → km !! i = km' !! i →
  kant !! i = kant' !! i →
  refl !! i = refl' !! i ∧ tran !! i = tran' !! i.
Proof.
  intros Hres Hres' Enr Eab Ecar Ebrown Ew Em Eant.
  pose proof (prospectdcore_inr_shapes m _ _ _ _ _ _ _ _ _ _ _ _ _ _ _ _ _ _ Hres) as Hs.
  pose proof (prospectdcore_inr_shapes m _ _ _ _ _ _ _ _ _ _ _ _ _ _ _ _ _ _ Hres') as Hs'.
  destruct (prospectdcore_inr_length m _ _ _ _ _ _ _ _ _ _ _ _ _ _ _ _ _ _ Hres)
    as (_ & Hlr & Hlt).
  destruct (prospectdcore_inr_length m _ _ _ _ _ _ _ _ _ _ _ _ _ _ _ _ _ _ Hres')
    as (_ & Hlr' & Hlt').
  destruct (decide (i < 2101)%nat) as [Hi|Hi].
  2: { rewrite !(proj2 (lookup_ge_None _ _)); [done|lia..]. }
  pose proof Hs as (Hnr & Hkab & Hkcar & Hkbrown & Hkw & Hkm & Hkant)%shapes_ok_true.
  assert (Hin : ∀ v : vec, length v = 2101%nat → is_Some (v !! i))
    by (intros v Hv; apply lookup_lt_is_Some; lia).
  destruct (Hin nr Hnr) as [n Hn]. destruct (Hin kab Hkab) as [xab Hab].
  destruct (Hin kcar Hkcar) as [xcar Hcar]. destruct (Hin kbrown Hkbrown) as [xbrown Hbrown].
  destruct (Hin kw Hkw) as [xw Hw]. destruct (Hin km Hkm) as [xm Hm].
  destruct (Hin kant Hkant) as [xant Hant].
  rewrite Hn in Enr. rewrite Hab in Eab. rewrite Hcar in Ecar. rewrite Hbrown in Ebrown.
  rewrite Hw in Ew. rewrite Hm in Em. rewrite Hant in Eant.
  symmetry in Enr, Eab, Ecar, Ebrown, Ew, Em, Eant.
  pose proof (prospect_kall_lookup N cab car cbrown cw cm ant kab kcar kbrown kw km kant
                i _ _ _ _ _ _ Hab Hcar Hbrown Hw Hm Hant) as Hk.
  pose proof (prospect_kall_lookup N cab car cbrown cw cm ant kab' kcar' kbrown' kw' km' kant'
                i _ _ _ _ _ _ Eab Ecar Ebrown Ew Em Eant) as Hk'.
  apply (prospect_tau_lookup m) in Hk, Hk'.
  set (tau := prospect_tau m _) in Hk. set (tau' := prospect_tau m _) in Hk'.
  destruct (refl_trans_one_layer m alpha nr tau) as [[[[r t] Ra] Ta] denom] eqn:Hone.
  destruct (refl_trans_one_layer m alpha nr' tau') as [[[[r' t'] Ra'] Ta'] denom'] eqn:Hone'.
  destruct (refl_trans_one_layer_local m alpha nr nr' _ _ i n _
              r t Ra Ta denom r' t' Ra' Ta' denom' Hn Enr Hk Hk' Hone Hone')
    as (ri & ti & Rai & Tai & (Hr & Ht & HRa & HTa) & (Hr' & Ht' & HRa' & HTa')).
  destruct (prospectdcore_lookup m N cab car cbrown cw cm ant nr kab kcar kbrown kw km kant
              alpha i r t Ra Ta denom ri ti Rai Tai Hs Hone Hr Ht HRa HTa)
    as (refl0 & tran0 & Hcore & Hrefl & Htran & _).
  destruct (prospectdcore_lookup m N cab car cbrown cw cm ant
              nr' kab' kcar' kbrown' kw' km' kant'
              alpha i r' t' Ra' Ta' denom' ri ti Rai Tai Hs' Hone' Hr' Ht' HRa' HTa')
    as (refl1 & tran1 & Hcore' & Hrefl' & Htran' & _).
  rewrite Hres in Hcore. rewrite Hres' in Hcore'.
  injection Hcore as _ <- <-. injection Hcore' as _ <- <-.
  by rewrite Hrefl, Hrefl', Htran, Htran'.
Qed.

(** X5: For an angle that equals 90 the arrays of the top surface are those of
    the bottom surface: [Ra] is [r] and [Ta] is [t]. *)
Theorem one_layer_alpha_90 alpha (nr tau r t Ra Ta denom : vec) :
  length tau = length nr →
  PrimFloat.eqb alpha 90 = true →
  refl_trans_one_layer m alpha nr tau = (r, t, Ra, Ta, denom) →
  Ra = r ∧ Ta = t.
Proof.
  intros _ Halpha Hone.
  assert (alpha = 90) as ->.
  { destruct (Prim2SF 90) as [| | |s m90 e] eqn:E; try (by vm_compute in E).
    by apply (eqb_finite_eq alpha 90 s m90 e). }
  by injection Hone as <- <- <- <- _.
Qed.

(** A number that is not greater than zero is negative, a zero or not a
    number. *)
Lemma not_gtb_zero (k : float) :
  gtb k 0 = false ↔ PrimFloat.ltb k 0 = true ∨ is_zero k = true ∨ is_nan k = true.
Proof.
  split.
  - unfold gtb. rewrite !FloatAxioms.ltb_spec. intros H.
    destruct (Prim2SF k) as [s|s| |s mk e] eqn:E.
    + right; left. apply is_zero_spec. eauto.
    + destruct s; [by left | done].
    + right; right. by apply is_nan_spec.
    + destruct s; [by left | done].
  - intros [H | [H | H]].
    + by apply ltb_not_gtb.
    + by apply zero_not_gtb.
    + by apply nan_not_gtb.
Qed.

Lemma is_nan_eq (x : float) : is_nan x = true → x = nan.
Proof. intros H%is_nan_spec. apply Prim2SF_inj. by rewrite H. Qed.

(** A content, a coefficient or an [N] that is not a number makes the
    element of [kall] not a number. *)
Lemma kall_pt_nan N cab car cbrown cw cm ant xab xcar xbrown xw xm xant :
  Exists (λ x, is_nan x = true)
    [N; cab; car; cbrown; cw; cm; ant; xab; xcar; xbrown; xw; xm; xant] →
  kall_pt N cab car cbrown cw cm ant xab xcar xbrown xw xm xant = nan.
Proof.
  intros H. unfold kall_pt.
  repeat (apply Exists_cons in H as [->%is_nan_eq | H]);
    [..|by apply Exists_nil in H];
    by rewrite ?mul_nan_l, ?mul_nan_r, ?add_nan_l, ?add_nan_r, ?add_nan_l,
               ?add_nan_r, ?add_nan_l, ?add_nan_r, ?add_nan_l, ?add_nan_r,
               ?div_nan_l, ?div_nan_r.
Qed.

End Wavelengths.

(** ** [run_prospect] and the direct call on the store *)

Section NotANumberInput.

Context (m : libm).

Local Open Scope float_scope.

(** X6: A content, an absorption coefficient or an [N] that is not a number
    does not reach [tau]: the element of [kall] is not a number, the mask
    [kall > 0] is false there, and the element of [tau] stays 1. *)
Theorem nan_input_keeps_tau_one N cab car cbrown cw cm ant
    (kab kcar kbrown kw km kant : vec) (i : nat) xab xcar xbrown xw xm xant :
  kab !! i = Some xab → kcar !! i = Some xcar → kbrown !! i = Some xbrown →
  kw !! i = Some xw → km !! i = Some xm → kant !! i = Some xant →
  Exists (λ x, is_nan x = true)
    [N; cab; car; cbrown; cw; cm; ant; xab; xcar; xbrown; xw; xm; xant] →
  let kall := prospect_kall N cab car cbrown cw cm ant kab kcar kbrown kw km kant in
  kall !! i = Some nan ∧ prospect_tau m kall !! i = Some 1.
Proof.
  intros Hab Hcar Hbrown Hw Hm Hant Hnan kall.
  assert (Hk : kall !! i = Some nan).
  { unfold kall.
    rewrite (prospect_kall_lookup N cab car cbrown cw cm ant kab kcar kbrown kw km kant
               i _ _ _ _ _ _ Hab Hcar Hbrown Hw Hm Hant).
    f_equal. by apply kall_pt_nan. }
  split; [exact Hk|]. by rewrite (prospect_tau_lookup m kall i nan Hk).
Qed.

End NotANumberInput.

Section RunProperties.

Local Open Scope float_scope.
Local Open Scope string_scope.

Context (m : libm).
Context (nr_5 kab_5 kcar_5 kbrown_5 kw_5 km_5 : vec).
Context (nr_d kab_d kcar_d kant_d kbrown_d kw_d km_d : vec).

Local Abbreviation run := (run_prospect m nr_5 kab_5 kcar_5 kbrown_5 kw_5 km_5
                         nr_d kab_d kcar_d kant_d kbrown_d kw_d km_d).

Lemma length_zeros_like (v : vec) : length (zeros_like v) = length v.
Proof. unfold zeros_like. by rewrite length_fmap. Qed.

Lemma zeros_like_finite (v : vec) : Forall (λ x, is_finite x = true) (zeros_like v).
Proof. unfold zeros_like. apply Forall_fmap, Forall_true. by intros x. Qed.

Lemma is_ok_prospectdcore N cab car cbrown cw cm ant
    (nr kab kcar kbrown kw km kant : vec) alpha :
  is_ok (prospectdcore m N cab car cbrown cw cm ant nr kab kcar kbrown kw km kant alpha)
  = shapes_ok nr kab kcar kbrown kw km kant.
Proof.
  destruct (shapes_ok nr kab kcar kbrown kw km kant) eqn:Hs.
  - by apply prospectdcore_good_shape.
  - by rewrite (prospectdcore_bad_shape m _ _ _ _ _ _ _ _ _ _ _ _ _ _ _ Hs).
Qed.

Lemma prospectdcore_error N cab car cbrown cw cm ant
    (nr kab kcar kbrown kw km kant : vec) alpha e :
  prospectdcore m N cab car cbrown cw cm ant nr kab kcar kbrown kw km kant alpha = inl e →
  e = shape_error.
Proof.
  intros H. destruct (shapes_ok nr kab kcar kbrown kw km kant) eqn:Hs.
  - pose proof (prospectdcore_good_shape m N cab car cbrown cw cm ant
                  nr kab kcar kbrown kw km kant alpha Hs) as Hok.
    by rewrite H in Hok.
  - rewrite (prospectdcore_bad_shape m _ _ _ _ _ _ _ _ _ _ _ _ _ _ _ Hs) in H. congruence.
Qed.

(** X7: [run_prospect] returns in two cases: the version is "5" and the six
    arrays it passes on (each the caller's, or the PROSPECT-5 table) and
    the table [km_5], which shapes the array of zeros, have 2101 elements;
    or the version is "d" or "D" and the seven arrays it passes on (each
    the caller's, or the PROSPECT-D table) have 2101 elements.  It fails
    with the version error exactly for the other versions, and with the
    shape error otherwise. *)
Theorem run_prospect_returns_iff n cab car cbrown cw cm ant (v : string)
    (nr kab kcar kbrown kw km kant : option vec) alpha :
  let res := run n cab car cbrown cw cm ant v nr kab kcar kbrown kw km kant alpha in
  (is_ok res = true ↔
     (v = "5"
      ∧ length (or_table nr nr_5) = 2101%nat ∧ length (or_table kab kab_5) = 2101%nat
      ∧ length (or_table kcar kcar_5) = 2101%nat
      ∧ length (or_table kbrown kbrown_5) = 2101%nat
      ∧ length (or_table kw kw_5) = 2101%nat ∧ length (or_table km km_5) = 2101%nat
      ∧ length km_5 = 2101%nat)
     ∨ ((v = "d" ∨ v = "D")
        ∧ length (or_table nr nr_d) = 2101%nat ∧ length (or_table kab kab_d) = 2101%nat
        ∧ length (or_table kcar kcar_d) = 2101%nat
        ∧ length (or_table kbrown kbrown_d) = 2101%nat
        ∧ length (or_table kw kw_d) = 2101%nat ∧ length (or_table km km_d) = 2101%nat
        ∧ length (or_table kant kant_d) = 2101%nat))
  ∧ (raises res version_error ↔ v ≠ "5" ∧ v ≠ "d" ∧ v ≠ "D")
  ∧ (is_ok res = false → raises res shape_error ∨ raises res version_error)
  ∧ ∀ wv refl tran, res = inr (wv, refl, tran) →
      wv = np_arange 400 2501 ∧ length refl = 2101%nat ∧ length tran = 2101%nat.
Proof.
  intros res. subst res.
  match goal with
  | |- ?A ∧ ?B ∧ ?C ∧ _ =>
      cut (A ∧ B ∧ C); [intros (H1 & H2 & H3); repeat (split; [assumption|])|]
  end.
  { unfold run_prospect. intros wv refl tran.
    destruct (String.eqb v "5"); [|destruct (String.eqb (upper v) "D")];
      [apply prospectdcore_inr_length.. | discriminate]. }
  unfold run_prospect. rewrite eqb_upper_D.
  destruct (String.eqb_spec v "5") as [-> | H5].
  { rewrite is_ok_prospectdcore, shapes_ok_true, length_zeros_like.
    split; [|split].
    - split; [intros H; left; tauto|].
      intros [[_ H] | [[H | H] _]]; [tauto | discriminate H..].
    - split; [|intros [H _]; by destruct H].
      intros H. apply prospectdcore_error in H. discriminate H.
    - intros H. left.
      by apply prospectdcore_bad_shape. }
  destruct (String.eqb_spec v "d") as [-> | Hd]; cbn [orb].
  { rewrite is_ok_prospectdcore, shapes_ok_true.
    split; [|split].
    - split; [intros H; right; tauto|].
      intros [[H _] | [_ H]]; [discriminate H | tauto].
    - split; [|intros (_ & H & _); by destruct H].
      intros H. apply prospectdcore_error in H. discriminate H.
    - intros H. left.
      by apply prospectdcore_bad_shape. }
  destruct (String.eqb_spec v "D") as [-> | HD].
  { rewrite is_ok_prospectdcore, shapes_ok_true.
    split; [|split].
    - split; [intros H; right; tauto|].
      intros [[H _] | [_ H]]; [discriminate H | tauto].
    - split; [|intros (_ & _ & H); by destruct H].
      intros H. apply prospectdcore_error in H. discriminate H.
    - intros H. left.
      by apply prospectdcore_bad_shape. }
  split; [|split].
  - split; [discriminate|]. intros [[H _] | [[H | H] _]]; congruence.
  - by split.
  - intros _. by right.
Qed.

(** X8: PROSPECT-D with no anthocyanin is PROSPECT-5: when the six arrays the
    two versions pass on are the same (the caller supplies them, or the
    tables agree) and the anthocyanin coefficients PROSPECT-D uses are
    finite and as many as [km_5] has rows, version "D" with [ant = 0]
    returns what version "5" returns. *)
Theorem prospectd_zero_ant_is_prospect5 n cab car cbrown cw cm ant
    (nr kab kcar kbrown kw km kant : option vec) alpha :
  or_table nr nr_d = or_table nr nr_5 → or_table kab kab_d = or_table kab kab_5 →
  or_table kcar kcar_d = or_table kcar kcar_5 →
  or_table kbrown kbrown_d = or_table kbrown kbrown_5 →
  or_table kw kw_d = or_table kw kw_5 → or_table km km_d = or_table km km_5 →
  length (or_table kant kant_d) = length km_5 →
  Forall (λ x, is_finite x = true) (or_table kant kant_d) →
  run n cab car cbrown cw cm 0 "D" nr kab kcar kbrown kw km kant alpha
  = run n cab car cbrown cw cm ant "5" nr kab kcar kbrown kw km kant alpha.
Proof.
  intros Hnr Hkab Hkcar Hkbrown Hkw Hkm Hlen Hfin. unfold run_prospect.
  change (String.eqb "D" "5") with false. change (String.eqb (upper "D") "D") with true.
  change (String.eqb "5" "5") with true. cbv iota.
  rewrite Hnr, Hkab, Hkcar, Hkbrown, Hkw, Hkm.
  unfold prospectdcore.
  rewrite (prospect_tau_zero_ant m n cab car cbrown cw cm _ _ _ _ _
             (or_table kant kant_d) (zeros_like km_5)).
  - replace (shapes_ok _ _ _ _ _ _ (or_table kant kant_d))
      with (shapes_ok (or_table nr nr_5) (or_table kab kab_5) (or_table kcar kcar_5)
              (or_table kbrown kbrown_5) (or_table kw kw_5) (or_table km km_5)
              (zeros_like km_5)); [done|].
    unfold shapes_ok. cbn [fmap list_fmap]. by rewrite Hlen, length_zeros_like.
  - by rewrite length_zeros_like.
  - done.
  - apply zeros_like_finite.
Qed.

End RunProperties.

Section DirectCall.

Context (m : libm).

Local Open Scope float_scope.

(** X9: A direct call of [prospectdcore] on a store, whatever arrays the seven
    addresses name and also when several name the same array, writes to
    no array the store holds: a raise is the shape error and leaves the
    store as it was, and a return gives the two outputs at two new
    addresses, distinct from each other, holding what the function on the
    arrays' elements returns. *)
Theorem prospectdcore_st_writes_no_input N cab car cbrown cw cm ant
    (nr kab kcar kbrown kw km kant : loc) alpha (σ : store) :
  let run := prospectdcore_st m N cab car cbrown cw cm ant
               nr kab kcar kbrown kw km kant alpha in
  let pure := prospectdcore m N cab car cbrown cw cm ant
                (deref σ nr) (deref σ kab) (deref σ kcar) (deref σ kbrown)
                (deref σ kw) (deref σ km) (deref σ kant) alpha in
  let σ' := (run σ).2 in
  (∀ (l : loc) (v : vec), σ !! l = Some v → σ' !! l = Some v)
  ∧ match (run σ).1 with
    | inl e => e = shape_error ∧ pure = inl shape_error ∧ σ' = σ
    | inr (wv, lrefl, ltran) =>
        σ !! lrefl = None ∧ σ !! ltran = None ∧ lrefl ≠ ltran
        ∧ pure = inr (wv, deref σ' lrefl, deref σ' ltran)
    end.
Proof.
  intros run pure σ'.
  pose proof (prospectdcore_st_spec m N cab car cbrown cw cm ant
                nr kab kcar kbrown kw km kant alpha σ) as [Hsub Hr].
  fold run in Hsub, Hr. fold pure in Hr. fold σ' in Hsub, Hr.
  split.
  - intros l v Hl. by eapply lookup_weaken.
  - destruct (run σ).1 as [e|[[wv lrefl] ltran]] eqn:Hres; [|exact Hr].
    pose proof (prospectdcore_error m _ _ _ _ _ _ _ _ _ _ _ _ _ _ _ _ Hr) as ->.
    split; [done|]. split; [done|].
    destruct (shapes_ok (deref σ nr) (deref σ kab) (deref σ kcar) (deref σ kbrown)
                (deref σ kw) (deref σ km) (deref σ kant)) eqn:Hs.
    + pose proof (prospectdcore_good_shape m N cab car cbrown cw cm ant
                    _ _ _ _ _ _ _ alpha Hs) as Hok.
      fold pure in Hok. by rewrite Hr in Hok.
    + unfold σ', run.
      by rewrite (prospectdcore_st_bad_shape m _ _ _ _ _ _ _ _ _ _ _ _ _ _ _ σ Hs).
Qed.

End DirectCall.

(** ** Values that are not numbers *)

Section Absorption.

Context (m : libm).

Local Open Scope float_scope.

(** X10: Every element of [kall] is greater than 0, negative, a zero or
    not a number; where it is negative, a zero of either sign or not a
    number, the element of [tau] is 1. *)
Theorem tau_without_absorption (kall : vec) (i : nat) (k : float) :
  kall !! i = Some k →
  (gtb k 0 = true ∨ PrimFloat.ltb k 0 = true ∨ is_zero k = true ∨ is_nan k = true)
  ∧ (PrimFloat.ltb k 0 = true ∨ is_zero k = true ∨ is_nan k = true →
     prospect_tau m kall !! i = Some 1).
Proof.
  intros Hk. split.
  - destruct (gtb k 0) eqn:H; [by left|]. right. by apply not_gtb_zero.
  - intros Hcase%not_gtb_zero.
    rewrite (prospect_tau_lookup m kall i k Hk). unfold tau_pt. by rewrite Hcase.
Qed.

Lemma one_layer_nan_Ta alpha (nr tau r t Ra Ta denom : vec) (i : nat) (x : float) :
  nr !! i = Some nan → tau !! i = Some x →
  refl_trans_one_layer m alpha nr tau = (r, t, Ra, Ta, denom) →
  Ta !! i = Some nan.
Proof.
  intros Hn Htau [= <- <- <- <- _].
  pose proof (calctav_nan m alpha nr i Hn) as Half.
  pose proof (calctav_nan m 90 nr i Hn) as H12.
  set (talf := calctav m alpha nr) in *. set (t12 := calctav m 90 nr) in *.
  vec_lookup. f_equal. by rewrite !mul_nan_l, div_nan_l.
Qed.

(** X11: A refractive index that is not a number at a wavelength gives a
    reflectance and a transmittance that are not numbers there. *)
Theorem nan_refractive_index_propagates N cab car cbrown cw cm ant
    (nr kab kcar kbrown kw km kant : vec) alpha (i : nat) (n : float) wv refl tran :
  prospectdcore m N cab car cbrown cw cm ant nr kab kcar kbrown kw km kant alpha
  = inr (wv, refl, tran) →
  nr !! i = Some n → is_nan n = true →
  refl !! i = Some nan ∧ tran !! i = Some nan.
Proof.
  intros Hres Hn ->%is_nan_eq.
  pose proof (prospectdcore_inr_shapes m _ _ _ _ _ _ _ _ _ _ _ _ _ _ _ _ _ _ Hres) as Hs.
  pose proof Hs as (Hnr & Hkab & Hkcar & Hkbrown & Hkw & Hkm & Hkant)%shapes_ok_true.
  set (kall := prospect_kall N cab car cbrown cw cm ant kab kcar kbrown kw km kant).
  assert (Hk : is_Some (prospect_tau m kall !! i)).
  { apply lookup_lt_is_Some. rewrite length_prospect_tau.
    unfold kall. rewrite (length_prospect_kall _ _ _ _ _ _ _ _ _ _ _ _ _ 2101) by done.
    rewrite <- Hnr. by apply lookup_lt_is_Some. }
  destruct Hk as [x Hx].
  destruct (refl_trans_one_layer m alpha nr (prospect_tau m kall))
    as [[[[r t] Ra] Ta] denom] eqn:Hone.
  destruct (one_layer_nan m alpha nr _ r t Ra Ta denom i x Hn Hx Hone)
    as (HRa & [ri Hr] & [ti Ht] & _).
  pose proof (one_layer_nan_Ta alpha nr _ r t Ra Ta denom i x Hn Hx Hone) as HTa.
  destruct (prospectdcore_lookup m N cab car cbrown cw cm ant nr kab kcar kbrown kw km kant
              alpha i r t Ra Ta denom ri ti nan nan Hs Hone Hr Ht HRa HTa)
    as (refl0 & tran0 & Hcore & Hrefl & Htran & _).
  rewrite Hres in Hcore. injection Hcore as _ <- <-.
  rewrite Hrefl, Htran. unfold leaf_combine_pt. cbn [fst snd].
  by rewrite add_nan_l, mul_nan_l, div_nan_l.
Qed.

(** With a content or an [N] that is not a number, [tau] is 1 at every
    wavelength. *)
Lemma prospect_tau_nan_content N cab car cbrown cw cm ant
    (kab kcar kbrown kw km kant : vec) (i : nat) (x : float) :
  Exists (λ x, is_nan x = true) [N; cab; car; cbrown; cw; cm; ant] →
  length kab = 2101%nat → length kcar = 2101%nat → length kbrown = 2101%nat →
  length kw = 2101%nat → length km = 2101%nat → length kant = 2101%nat →
  prospect_tau m (prospect_kall N cab car cbrown cw cm ant kab kcar kbrown kw km kant) !! i
  = Some x →
  x = 1.
Proof.
  intros Hnan Hkab Hkcar Hkbrown Hkw Hkm Hkant.
  set (kall := prospect_kall _ _ _ _ _ _ _ _ _ _ _ _ _).
  assert (Hlk : length kall = 2101%nat) by (by apply length_prospect_kall).
  intros Hx. pose proof (lookup_lt_Some _ _ _ Hx) as Hi.
  rewrite length_prospect_tau, Hlk in Hi.
  assert (Hin : ∀ v : vec, length v = 2101%nat → is_Some (v !! i))
    by (intros v Hv; apply lookup_lt_is_Some; lia).
  destruct (Hin kab Hkab) as [xab Hab]. destruct (Hin kcar Hkcar) as [xcar Hcar].
  destruct (Hin kbrown Hkbrown) as [xbrown Hbrown]. destruct (Hin kw Hkw) as [xw Hw].
  destruct (Hin km Hkm) as [xm Hm]. destruct (Hin kant Hkant) as [xant Hant].
  pose proof (prospect_kall_lookup N cab car cbrown cw cm ant kab kcar kbrown kw km kant
                i _ _ _ _ _ _ Hab Hcar Hbrown Hw Hm Hant) as Hk.
  fold kall in Hk. rewrite kall_pt_nan in Hk.
  - rewrite (prospect_tau_lookup m kall i nan Hk) in Hx. by injection Hx as <-.
  - replace [N; cab; car; cbrown; cw; cm; ant; xab; xcar; xbrown; xw; xm; xant]
      with ([N; cab; car; cbrown; cw; cm; ant] ++ [xab; xcar; xbrown; xw; xm; xant])
      by done.
    apply Exists_app. by left.
Qed.

(** X12: A content that is not a number switches absorption off: the result
    is that of any other contents among which one is not a number and of
    any other absorption coefficients of valid shape, for the same [N],
    refractive index and angle. *)
Theorem nan_content_switches_absorption_off N cab car cbrown cw cm ant
    cab' car' cbrown' cw' cm' ant'
    (nr kab kcar kbrown kw km kant kab' kcar' kbrown' kw' km' kant' : vec) alpha :
  Exists (λ x, is_nan x = true) [cab; car; cbrown; cw; cm; ant] →
  Exists (λ x, is_nan x = true) [cab'; car'; cbrown'; cw'; cm'; ant'] →
  shapes_ok nr kab kcar kbrown kw km kant = true →
  shapes_ok nr kab' kcar' kbrown' kw' km' kant' = true →
  prospectdcore m N cab car cbrown cw cm ant nr kab kcar kbrown kw km kant alpha
  = prospectdcore m N cab' car' cbrown' cw' cm' ant'
      nr kab' kcar' kbrown' kw' km' kant' alpha.
Proof.
  intros Hnan Hnan' Hs Hs'. unfold prospectdcore. rewrite Hs, Hs'.
  apply shapes_ok_true in Hs as (_ & Hkab & Hkcar & Hkbrown & Hkw & Hkm & Hkant).
  apply shapes_ok_true in Hs' as (_ & Hkab' & Hkcar' & Hkbrown' & Hkw' & Hkm' & Hkant').
  set (kall := prospect_kall N cab _ _ _ _ _ _ _ _ _ _ _).
  set (kall' := prospect_kall N cab' _ _ _ _ _ _ _ _ _ _ _).
  assert (Htau : prospect_tau m kall = prospect_tau m kall'); [|by rewrite Htau].
  apply (list_eq_same_length _ _ 2101).
  - rewrite length_prospect_tau. by apply length_prospect_kall.
  - rewrite length_prospect_tau. by apply length_prospect_kall.
  - intros i x y _ Hx Hy.
    apply prospect_tau_nan_content in Hx; [|by apply Exists_cons_tl|done..].
    apply prospect_tau_nan_content in Hy; [|by apply Exists_cons_tl|done..].
    congruence.
Qed.

End Absorption.

(** ** A leaf without absorbers *)

Section NoAbsorber.

Context (m : libm).

Local Open Scope float_scope.

Lemma add_zeros (x y : float) :
  is_zero x = true → is_zero y = true → is_zero (x + y) = true.
Proof.
  intros [sx Hx]%is_zero_spec [sy Hy]%is_zero_spec. apply is_zero_spec.
  rewrite add_spec, Hx, Hy. destruct sx, sy; simpl; eauto.
Qed.

(** A zero divided by any number is a zero or not a number. *)
Lemma div_zero_any (z n : float) :
  is_zero z = true → is_zero (z / n) = true ∨ is_nan (z / n) = true.
Proof.
  intros [sz Hz]%is_zero_spec.
  destruct (Prim2SF n) as [sn|sn| |sn mn en] eqn:Hn.
  - right. apply is_nan_spec. by rewrite div_spec, Hz, Hn.
  - left. apply is_zero_spec. rewrite div_spec, Hz, Hn. simpl; eauto.
  - right. apply is_nan_spec. by rewrite div_spec, Hz, Hn.
  - left. apply is_zero_spec. rewrite div_spec, Hz, Hn. simpl; eauto.
Qed.

(** X13: A leaf without absorbers: when the six contents are zero, [tau] is 1
    at every wavelength where the six coefficients are finite, whatever
    [N] is. *)
Theorem no_absorber_tau_one N cab car cbrown cw cm ant
    (kab kcar kbrown kw km kant : vec) (i : nat) xab xcar xbrown xw xm xant :
  kab !! i = Some xab → kcar !! i = Some xcar → kbrown !! i = Some xbrown →
  kw !! i = Some xw → km !! i = Some xm → kant !! i = Some xant →
  Forall (λ c, is_zero c = true) [cab; car; cbrown; cw; cm; ant] →
  Forall (λ x, is_finite x = true) [xab; xcar; xbrown; xw; xm; xant] →
  prospect_tau m (prospect_kall N cab car cbrown cw cm ant kab kcar kbrown kw km kant) !! i
  = Some 1.
Proof.
  intros Hab Hcar Hbrown Hw Hm Hant Hz Hfin.
  repeat match goal with
  | H : Forall _ (_ :: _) |- _ => apply Forall_cons in H as [? H]
  end.
  rewrite (prospect_tau_lookup m _ i _
             (prospect_kall_lookup N cab car cbrown cw cm ant kab kcar kbrown kw km kant
                i _ _ _ _ _ _ Hab Hcar Hbrown Hw Hm Hant)).
  unfold tau_pt, kall_pt.
  assert (Hsum : is_zero (cab * xab + car * xcar + ant * xant + cbrown * xbrown
                          + cw * xw + cm * xm) = true)
    by (repeat apply add_zeros; by apply mul_zero_l).
  destruct (div_zero_any _ N Hsum) as [Hzero | Hnan].
  - by rewrite zero_not_gtb.
  - by rewrite nan_not_gtb.
Qed.

End NoAbsorber.

(** * The theorems on the sample leaf *)

Section Witnesses.

Local Open Scope float_scope.
Local Open Scope string_scope.

Lemma shape_validation_witness :
  raises (prospectdcore sample_libm 1.5 40 8 0 0.0078125 0.0078125 0
            (flat 1.5) (short 0.03125) (flat 0.03125) (flat 0) (flat 2) (flat 4) (flat 0) 40)
    shape_error
  ∧ raises (run_prospect sample_libm
              (flat 1.5) (flat 0.03125) (flat 0.03125) (flat 0) (flat 2) (flat 4)
              (flat 1.5) (flat 0.03125) (flat 0.03125) (flat 0.0625) (flat 0) (flat 2)
              (flat 4)
              1.5 40 8 0 0.0078125 0.0078125 0 "D"
              None (Some (short 0.03125)) None None None None None 40)
      shape_error.
Proof.
  destruct (shape_validation sample_libm
              (flat 1.5) (flat 0.03125) (flat 0.03125) (flat 0) (flat 2) (flat 4)
              (flat 1.5) (flat 0.03125) (flat 0.03125) (flat 0.0625) (flat 0) (flat 2)
              (flat 4)
              1.5 40 8 0 0.0078125 0.0078125 0
              (flat 1.5) (short 0.03125) (flat 0.03125) (flat 0) (flat 2) (flat 4) (flat 0) 40
              ∅ 0%nat 0%nat 0%nat 0%nat 0%nat 0%nat 0%nat
              "D" (short 0.03125) None None None None None None) as [H1 H2].
  split.
  - apply H1. right; left. unfold short. rewrite repeat_length. lia.
  - apply H2; [by right | apply repeat_length].
Defined.

Lemma override_shape_validation_witness :
  raises (run_prospect sample_libm
            (flat 1.5) (flat 0.03125) (flat 0.03125) (flat 0) (flat 2) (flat 4)
            (flat 1.5) (flat 0.03125) (flat 0.03125) (flat 0.0625) (flat 0) (flat 2)
            (flat 4)
            1.5 40 8 0 0.0078125 0.0078125 0 "d"
            None None None None None None (Some (short 0.0625)) 40)
    shape_error.
Proof.
  refine (proj1 (override_shape_validation sample_libm
            (flat 1.5) (flat 0.03125) (flat 0.03125) (flat 0) (flat 2) (flat 4)
            (flat 1.5) (flat 0.03125) (flat 0.03125) (flat 0.0625) (flat 0) (flat 2)
            (flat 4)
            1.5 40 8 0 0.0078125 0.0078125 0 "d"
            None None None None None None (Some (short 0.0625)) None 40 _) _).
  - by right.
  - do 6 right. split; [discriminate|]. unfold bad_override, short. rewrite repeat_length. lia.
Defined.

(** One call, two branches: the coefficients vanish at index 0, where
    [kall] is 0, and not at index 7, where [kall] is 1.03125. *)
Lemma tau_piecewise_witness :
  let kall := prospect_kall 1.5 40 8 0 0.0078125 0.0078125 0
                (bump 0 0.03125) (bump 0 0.03125) (flat 0) (bump 0 2) (bump 0 4)
                (flat 0) in
  let run := prospectdcore sample_libm 1.5 40 8 0 0.0078125 0.0078125 0
               (flat 1.5) (bump 0 0.03125) (bump 0 0.03125) (flat 0) (bump 0 2)
               (bump 0 4) (flat 0) 40 in
  let tau_7 := (1 - 1.03125) * np_exp sample_libm (- 1.03125)
               + np_power sample_libm 1.03125 2 * - expi sample_libm (- 1.03125) in
  (kall !! 0%nat = Some 0
   ∧ prospect_tau sample_libm kall !! 0%nat = Some 1
   ∧ ∃ refl tran ri ti Rai Tai di,
       run = inr (lambdas, refl, tran)
       ∧ refl_trans_one_layer sample_libm 40 [1.5] [1] = ([ri], [ti], [Rai], [Tai], [di])
       ∧ refl !! 0%nat
         = Some (Rai + Tai * (stokes_sub_pt sample_libm 1.5 ri ti).1 * ti
                       / (1 - (stokes_sub_pt sample_libm 1.5 ri ti).1 * ri))
       ∧ tran !! 0%nat
         = Some (Tai * (stokes_sub_pt sample_libm 1.5 ri ti).2
                 / (1 - (stokes_sub_pt sample_libm 1.5 ri ti).1 * ri)))
  ∧ (kall !! 7%nat = Some 1.03125
     ∧ prospect_tau sample_libm kall !! 7%nat = Some tau_7
     ∧ ∃ refl tran ri ti Rai Tai di,
         run = inr (lambdas, refl, tran)
         ∧ refl_trans_one_layer sample_libm 40 [1.5] [tau_7] = ([ri], [ti], [Rai], [Tai], [di])
         ∧ refl !! 7%nat
           = Some (Rai + Tai * (stokes_sub_pt sample_libm 1.5 ri ti).1 * ti
                         / (1 - (stokes_sub_pt sample_libm 1.5 ri ti).1 * ri))
         ∧ tran !! 7%nat
           = Some (Tai * (stokes_sub_pt sample_libm 1.5 ri ti).2
                   / (1 - (stokes_sub_pt sample_libm 1.5 ri ti).1 * ri))).
Proof.
  intros kall run tau_7.
  assert (Hs : shapes_ok (flat 1.5) (bump 0 0.03125) (bump 0 0.03125) (flat 0) (bump 0 2)
                 (bump 0 4) (flat 0) = true) by (vm_compute; reflexivity).
  split.
  - destruct (tau_piecewise sample_libm 1.5 40 8 0 0.0078125 0.0078125 0
                (flat 1.5) (bump 0 0.03125) (bump 0 0.03125) (flat 0) (bump 0 2)
                (bump 0 4) (flat 0) 40 0 1.5 0 0 0 0 0 0
                Hs eq_refl eq_refl eq_refl eq_refl eq_refl eq_refl eq_refl)
      as (tau_i & Hk & Htau & Hzero & _ & Hout).
    rewrite (Hzero eq_refl) in Htau, Hout.
    split; [exact Hk|]. split; [exact Htau|]. exact Hout.
  - destruct (tau_piecewise sample_libm 1.5 40 8 0 0.0078125 0.0078125 0
                (flat 1.5) (bump 0 0.03125) (bump 0 0.03125) (flat 0) (bump 0 2)
                (bump 0 4) (flat 0) 40 7 1.5 0.03125 0.03125 0 2 4 0
                Hs eq_refl eq_refl eq_refl eq_refl eq_refl eq_refl eq_refl)
      as (tau_i & Hk & Htau & _ & Hpos & Hout).
    rewrite (Hpos eq_refl) in Htau, Hout.
    split; [exact Hk|]. split; [exact Htau|]. exact Hout.
Defined.

(** One call, two branches: index 0 has [r + t >= 1], index 7 has not. *)
Lemma stokes_zero_absorption_witness :
  let run := prospectdcore sample_libm 1.5 40 8 0 0.0078125 0.0078125 0
               (flat 1.5) (bump 0 0.03125) (bump 0 0.03125) (flat 0) (bump 0 2)
               (bump 0 4) (flat 0) 40 in
  let r := sample_mixed_one_layer.1.1.1.1 in
  let t := sample_mixed_one_layer.1.1.1.2 in
  let r_0 := 0x1.b968457dbf22dp-2 in
  let t_0 := 0x1.234bdd41206eap-1 in
  let Ra_0 := 0x1.9934592a21489p-2 in
  let Ta_0 := 0x1.3365d36aef5bdp-1 in
  let r_7 := 0x1.a02a1fa5dfeb6p-4 in
  let t_7 := 0x1.40dbf400c5873p-4 in
  let Ra_7 := 0x1.a985ea443d156p-5 in
  let Ta_7 := 0x1.52983db277e21p-4 in
  (∃ refl tran Rsub_i Tsub_i,
     run = inr (lambdas, refl, tran)
     ∧ (stokes_sub sample_libm 1.5 r t).1 !! 0%nat = Some Rsub_i
     ∧ (stokes_sub sample_libm 1.5 r t).2 !! 0%nat = Some Tsub_i
     ∧ Tsub_i = t_0 / (t_0 + (1 - t_0) * (1.5 - 1))
     ∧ Rsub_i = 1 - t_0 / (t_0 + (1 - t_0) * (1.5 - 1))
     ∧ refl !! 0%nat = Some (Ra_0 + Ta_0 * Rsub_i * t_0 / (1 - Rsub_i * r_0))
     ∧ tran !! 0%nat = Some (Ta_0 * Tsub_i / (1 - Rsub_i * r_0)))
  ∧ (∃ refl tran Rsub_i Tsub_i,
       run = inr (lambdas, refl, tran)
       ∧ (stokes_sub sample_libm 1.5 r t).1 !! 7%nat = Some Rsub_i
       ∧ (stokes_sub sample_libm 1.5 r t).2 !! 7%nat = Some Tsub_i
       ∧ Rsub_i = (stokes_general_pt sample_libm 1.5 r_7 t_7).1
       ∧ Tsub_i = (stokes_general_pt sample_libm 1.5 r_7 t_7).2
       ∧ refl !! 7%nat = Some (Ra_7 + Ta_7 * Rsub_i * t_7 / (1 - Rsub_i * r_7))
       ∧ tran !! 7%nat = Some (Ta_7 * Tsub_i / (1 - Rsub_i * r_7))).
Proof.
  intros run r t r_0 t_0 Ra_0 Ta_0 r_7 t_7 Ra_7 Ta_7.
  assert (Hs : shapes_ok (flat 1.5) (bump 0 0.03125) (bump 0 0.03125) (flat 0) (bump 0 2)
                 (bump 0 4) (flat 0) = true) by (vm_compute; reflexivity).
  assert (Hone : refl_trans_one_layer sample_libm 40 (flat 1.5)
                   (prospect_tau sample_libm
                      (prospect_kall 1.5 40 8 0 0.0078125 0.0078125 0
                         (bump 0 0.03125) (bump 0 0.03125) (flat 0) (bump 0 2) (bump 0 4)
                         (flat 0)))
                 = (r, t, sample_mixed_one_layer.1.1.2, sample_mixed_one_layer.1.2,
                    sample_mixed_one_layer.2)) by (vm_compute; reflexivity).
  split.
  - destruct (stokes_zero_absorption sample_libm 1.5 40 8 0 0.0078125 0.0078125 0
                (flat 1.5) (bump 0 0.03125) (bump 0 0.03125) (flat 0) (bump 0 2)
                (bump 0 4) (flat 0) 40 0 _ _ _ _ _ r_0 t_0 Ra_0 Ta_0 Hs Hone)
      as (refl & tran & Rsub_i & Tsub_i & Hcore & HR & HT & Hge & _ & Hrefl & Htran);
      [vm_compute; reflexivity..|].
    destruct (Hge eq_refl) as [HTs HRs].
    exists refl, tran, Rsub_i, Tsub_i. by repeat split.
  - destruct (stokes_zero_absorption sample_libm 1.5 40 8 0 0.0078125 0.0078125 0
                (flat 1.5) (bump 0 0.03125) (bump 0 0.03125) (flat 0) (bump 0 2)
                (bump 0 4) (flat 0) 40 7 _ _ _ _ _ r_7 t_7 Ra_7 Ta_7 Hs Hone)
      as (refl & tran & Rsub_i & Tsub_i & Hcore & HR & HT & _ & Hlt & Hrefl & Htran);
      [vm_compute; reflexivity..|].
    destruct (Hlt eq_refl) as [HRs HTs].
    exists refl, tran, Rsub_i, Tsub_i. by repeat split.
Defined.

Lemma calctav_b1_branch_witness :
  calctav_b1 sample_libm 90 (flat 1.5) = Scalar 0
  ∧ nd_at (calctav_b1 sample_libm 40 (flat 1.5)) 3
    = Some (PrimFloat.sqrt ((calctav_sa sample_libm 40 * calctav_sa sample_libm 40
                             - (1.5 * 1.5 + 1) / 2)
                            * (calctav_sa sample_libm 40 * calctav_sa sample_libm 40
                               - (1.5 * 1.5 + 1) / 2)
                            + - (1.5 * 1.5 - 1) * (1.5 * 1.5 - 1) / 4)).
Proof.
  split.
  - exact (proj1 (calctav_b1_branch sample_libm 90 (flat 1.5) 3 1.5 eq_refl) eq_refl).
  - exact (proj1 (proj2 (calctav_b1_branch sample_libm 40 (flat 1.5) 3 1.5 eq_refl))
             eq_refl).
Defined.

Lemma single_layer_identity_witness :
  ∃ refl tran refl_i tran_i Rsub_i,
    prospectdcore sample_libm 1 40 8 0 0.0078125 0.0078125 0
      (flat 1.5) (flat 0.03125) (flat 0.03125) (flat 0) (flat 2) (flat 4) (flat 0) 40
    = inr (lambdas, refl, tran)
    ∧ refl !! 5%nat = Some refl_i ∧ tran !! 5%nat = Some tran_i
    ∧ PrimFloat.eqb refl_i 0x1.6a4088354281cp-5 = true
    ∧ tran_i = 0x1.53fc2e947b009p-5
    ∧ (stokes_sub sample_libm 1 sample_one_layer.1.1.1.1 sample_one_layer.1.1.1.2).1 !! 5%nat
      = Some Rsub_i
    ∧ is_zero Rsub_i = true
    ∧ (stokes_sub sample_libm 1 sample_one_layer.1.1.1.1 sample_one_layer.1.1.1.2).2 !! 5%nat
      = Some 1.
Proof.
  refine (single_layer_identity sample_libm 40 8 0 0.0078125 0.0078125 0
           (flat 1.5) (flat 0.03125) (flat 0.03125) (flat 0) (flat 2) (flat 4) (flat 0)
           40 5
           sample_one_layer.1.1.1.1 sample_one_layer.1.1.1.2 sample_one_layer.1.1.2
           sample_one_layer.1.2 sample_one_layer.2
           0x1.822fa3afe36e8p-4 0x1.422d3fff95548p-5 0x1.6a4088354281cp-5
           0x1.53fc2e947b009p-5 _ _ _ _ _ _ _ _).
  - intros x. reflexivity.
  - vm_compute. reflexivity.
  - vm_compute. reflexivity.
  - vm_compute. reflexivity.
  - vm_compute. reflexivity.
  - vm_compute. reflexivity.
  - vm_compute. reflexivity.
  - vm_compute. reflexivity.
Defined.

Lemma sample_store_allocated (l : nat) : (l < 14)%nat → allocated sample_store l.
Proof.
  intros Hl. unfold allocated, sample_store.
  do 14 (destruct l as [|l]; [by eexists|]). lia.
Qed.

Lemma run_prospect_side_effect_free_witness :
  let run := run_prospect_st sample_libm 0 1 2 3 4 5 6 7 8 9 10 11 12
               1.5 40 8 0 0.0078125 0.0078125 0.5 "D"
               None (Some 13%nat) None None None None None 40 in
  let pure := run_prospect_on sample_libm 0 1 2 3 4 5 6 7 8 9 10 11 12 sample_store
                1.5 40 8 0 0.0078125 0.0078125 0.5 "D"
                None (Some 13%nat) None None None None None 40 in
  let σ' := (run sample_store).2 in
  returns_fresh sample_store pure (run sample_store).1 σ'
  ∧ (∀ l, allocated sample_store l → deref σ' l = deref sample_store l)
  ∧ returns_fresh σ' pure (run σ').1 (run σ').2.
Proof.
  refine (run_prospect_side_effect_free sample_libm 0 1 2 3 4 5 6 7 8 9 10 11 12
           sample_store 1.5 40 8 0 0.0078125 0.0078125 0.5 "D"
           None (Some 13%nat) None None None None None 40 _).
  split.
  - repeat (apply Forall_cons; split; [apply sample_store_allocated; lia|]).
    apply Forall_nil_2.
  - repeat (apply Forall_cons; split; [first [exact I | apply sample_store_allocated; lia]|]).
    apply Forall_nil_2.
Defined.

End Witnesses.

(** * The further properties on the sample leaf *)

Section FurtherWitnesses.

Local Open Scope float_scope.
Local Open Scope string_scope.

Lemma flat_finite (x : float) :
  is_finite x = true → Forall (λ y, is_finite y = true) (flat x).
Proof.
  intros Hx. unfold flat. generalize n_lambdas. intros n.
  induction n as [|n IH]; simpl; by constructor.
Qed.

Lemma zero_ant_ignores_kant_witness :
  prospectdcore sample_libm 1.5 40 8 0 0.0078125 0.0078125 0
    (flat 1.5) (flat 0.03125) (flat 0.03125) (flat 0) (flat 2) (flat 4) (flat 0.0625) 40
  = prospectdcore sample_libm 1.5 40 8 0 0.0078125 0.0078125 0
      (flat 1.5) (flat 0.03125) (flat 0.03125) (flat 0) (flat 2) (flat 4) (flat 0.5) 40.
Proof.
  apply (zero_ant_ignores_kant sample_libm 1.5 40 8 0 0.0078125 0.0078125
           (flat 1.5) (flat 0.03125) (flat 0.03125) (flat 0) (flat 2) (flat 4)
           (flat 0.0625) (flat 0.5) 40).
  - reflexivity.
  - apply flat_finite. reflexivity.
  - apply flat_finite. reflexivity.
Defined.

(** A negative chlorophyll content makes [kall] negative. *)
Lemma tau_without_absorption_witness :
  prospect_tau sample_libm
    (prospect_kall 1 (-40) 8 0 0.0078125 0.0078125 0
       (flat 0.03125) (flat 0.03125) (flat 0) (flat 2) (flat 4) (flat 0)) !! 7%nat
  = Some 1.
Proof.
  refine (proj2 (tau_without_absorption sample_libm
            (prospect_kall 1 (-40) 8 0 0.0078125 0.0078125 0
               (flat 0.03125) (flat 0.03125) (flat 0) (flat 2) (flat 4) (flat 0))
            7 (-0.953125) _) _).
  - vm_compute. reflexivity.
  - left. reflexivity.
Defined.

Lemma nan_input_keeps_tau_one_witness :
  let kall := prospect_kall 1.5 40 8 0 0.0078125 0.0078125 0
                (bump nan 0.03125) (flat 0.03125) (flat 0) (flat 2) (flat 4) (flat 0) in
  kall !! 0%nat = Some nan ∧ prospect_tau sample_libm kall !! 0%nat = Some 1.
Proof.
  refine (nan_input_keeps_tau_one sample_libm 1.5 40 8 0 0.0078125 0.0078125 0
            (bump nan 0.03125) (flat 0.03125) (flat 0) (flat 2) (flat 4) (flat 0) 0
            nan 0.03125 0 2 4 0 eq_refl eq_refl eq_refl eq_refl eq_refl eq_refl _).
  do 7 apply Exists_cons_tl. apply Exists_cons_hd. reflexivity.
Defined.

(** Two calls whose arrays of refractive indices and of chlorophyll
    coefficients agree at the first wavelength and differ at the others. *)
Lemma prospectdcore_wavelength_local_witness :
  let run1 := prospectdcore sample_libm 1.5 40 8 0 0.0078125 0.0078125 0
                (flat 1.5) (flat 0.03125) (flat 0.03125) (flat 0) (flat 2) (flat 4)
                (flat 0) 40 in
  let run2 := prospectdcore sample_libm 1.5 40 8 0 0.0078125 0.0078125 0
                (bump 1.5 1.25) (bump 0.03125 0.0625) (flat 0.03125) (flat 0) (flat 2)
                (flat 4) (flat 0) 40 in
  result_refl run1 !! 0%nat = result_refl run2 !! 0%nat
  ∧ result_tran run1 !! 0%nat = result_tran run2 !! 0%nat.
Proof.
  intros run1 run2.
  refine (prospectdcore_wavelength_local sample_libm 1.5 40 8 0 0.0078125 0.0078125 0 40
            (flat 1.5) (flat 0.03125) (flat 0.03125) (flat 0) (flat 2) (flat 4) (flat 0)
            (bump 1.5 1.25) (bump 0.03125 0.0625) (flat 0.03125) (flat 0) (flat 2)
            (flat 4) (flat 0)
            0 lambdas (result_refl run1) (result_tran run1)
            lambdas (result_refl run2) (result_tran run2) _ _
            eq_refl eq_refl eq_refl eq_refl eq_refl eq_refl eq_refl).
  - vm_compute. reflexivity.
  - vm_compute. reflexivity.
Defined.

Lemma one_layer_alpha_90_witness :
  let one := refl_trans_one_layer sample_libm 90 [1.5; 1.25] [0.5; 0.875] in
  one.1.1.2 = one.1.1.1.1 ∧ one.1.2 = one.1.1.1.2.
Proof.
  intros one.
  refine (one_layer_alpha_90 sample_libm 90 [1.5; 1.25] [0.5; 0.875]
            one.1.1.1.1 one.1.1.1.2 one.1.1.2 one.1.2 one.2 _ _ _).
  - reflexivity.
  - reflexivity.
  - reflexivity.
Defined.

(** The sample tables of the two versions agree on the six arrays they
    share. *)
Lemma prospectd_zero_ant_is_prospect5_witness :
  run_prospect sample_libm
    (flat 1.5) (flat 0.03125) (flat 0.03125) (flat 0) (flat 2) (flat 4)
    (flat 1.5) (flat 0.03125) (flat 0.03125) (flat 0.0625) (flat 0) (flat 2) (flat 4)
    1.5 40 8 0 0.0078125 0.0078125 0 "D"
    None None None None None None None 40
  = run_prospect sample_libm
      (flat 1.5) (flat 0.03125) (flat 0.03125) (flat 0) (flat 2) (flat 4)
      (flat 1.5) (flat 0.03125) (flat 0.03125) (flat 0.0625) (flat 0) (flat 2) (flat 4)
      1.5 40 8 0 0.0078125 0.0078125 0.5 "5"
      None None None None None None None 40.
Proof.
  refine (prospectd_zero_ant_is_prospect5 sample_libm
            (flat 1.5) (flat 0.03125) (flat 0.03125) (flat 0) (flat 2) (flat 4)
            (flat 1.5) (flat 0.03125) (flat 0.03125) (flat 0.0625) (flat 0) (flat 2)
            (flat 4)
            1.5 40 8 0 0.0078125 0.0078125 0.5
            None None None None None None None 40
            eq_refl eq_refl eq_refl eq_refl eq_refl eq_refl _ _).
  - reflexivity.
  - apply flat_finite. reflexivity.
Defined.

Lemma nan_refractive_index_propagates_witness :
  let run := prospectdcore sample_libm 1.5 40 8 0 0.0078125 0.0078125 0
               (bump nan 1.5) (flat 0.03125) (flat 0.03125) (flat 0) (flat 2) (flat 4)
               (flat 0) 40 in
  result_refl run !! 0%nat = Some nan ∧ result_tran run !! 0%nat = Some nan.
Proof.
  intros run.
  refine (nan_refractive_index_propagates sample_libm 1.5 40 8 0 0.0078125 0.0078125 0
            (bump nan 1.5) (flat 0.03125) (flat 0.03125) (flat 0) (flat 2) (flat 4)
            (flat 0) 40 0 nan lambdas (result_refl run) (result_tran run) _ eq_refl eq_refl).
  vm_compute. reflexivity.
Defined.

(** A chlorophyll content that is not a number against a water content
    that is not a number, on different coefficients. *)
Lemma nan_content_switches_absorption_off_witness :
  prospectdcore sample_libm 1.5 nan 8 0 0.0078125 0.0078125 0
    (flat 1.5) (flat 0.03125) (flat 0.03125) (flat 0) (flat 2) (flat 4) (flat 0) 40
  = prospectdcore sample_libm 1.5 40 0 0 nan 0.5 0
      (flat 1.5) (flat 0.0625) (flat 0.03125) (flat 0.5) (flat 2) (flat 8) (flat 0.0625) 40.
Proof.
  apply (nan_content_switches_absorption_off sample_libm 1.5 nan 8 0 0.0078125 0.0078125 0
           40 0 0 nan 0.5 0
           (flat 1.5) (flat 0.03125) (flat 0.03125) (flat 0) (flat 2) (flat 4) (flat 0)
           (flat 0.0625) (flat 0.03125) (flat 0.5) (flat 2) (flat 8) (flat 0.0625) 40).
  - apply Exists_cons_hd. reflexivity.
  - do 3 apply Exists_cons_tl. apply Exists_cons_hd. reflexivity.
  - vm_compute. reflexivity.
  - vm_compute. reflexivity.
Defined.

(** Zero contents of either sign, and a zero [N], which makes [kall] not a
    number. *)
Lemma no_absorber_tau_one_witness :
  prospect_tau sample_libm
    (prospect_kall 0 0 (-0) 0 0 0 0
       (flat 0.03125) (flat 0.03125) (flat 0) (flat 2) (flat 4) (flat 0.0625)) !! 7%nat
  = Some 1.
Proof.
  refine (no_absorber_tau_one sample_libm 0 0 (-0) 0 0 0 0
            (flat 0.03125) (flat 0.03125) (flat 0) (flat 2) (flat 4) (flat 0.0625) 7
            0.03125 0.03125 0 2 4 0.0625 eq_refl eq_refl eq_refl eq_refl eq_refl eq_refl
            _ _).
  - repeat (apply Forall_cons; split; [reflexivity|]). apply Forall_nil_2.
  - repeat (apply Forall_cons; split; [reflexivity|]). apply Forall_nil_2.
Defined.

End FurtherWitnesses.
